(** * bcconvert: the per-file conversion pipeline and its coordinator

    A shallow embedding of [bcconvert.py].  Python [bytes] and [str] values
    are Rocq [string]s (a [str] is represented by its UTF-8 encoding), the
    file system and the tag containers form an explicit [World] threaded
    through a state-and-exception monad, and everything the script asks of
    its host (child processes, the archive reader, the tag library, the
    built-in [int]) is collected in a record [Host].

    - A host answers by command line: the same command gives the same
      answer, so the two listings taken of one file agree.
    - Every effect is appended to the trace of the world; statements about
      order are statements about the trace.
    - A coroutine is a computation; [asyncio.gather] runs its children one
      after the other, which is one of the schedules of the event loop.
      Where the schedule matters (the entry guards of the pipelines are all
      evaluated before any pipeline goes on) the model says so.
    - Case folding and the character classes of the patterns are those of
      ASCII; a byte of a character outside ASCII is left alone by [lower]
      and counts as a word character. *)

From stdpp Require Import base gmap sets list strings.
From Stdlib Require Import ZArith Ascii String Lia.

Open Scope string_scope.
Open Scope Z_scope.

(** ** Byte strings *)

Module Bytes.

Definition code (a : ascii) : N := N_of_ascii a.

Definition between (lo hi : N) (a : ascii) : bool :=
  ((lo <=? code a) && (code a <=? hi))%N.

(** [bytes.lower()] / [str.lower()] on the ASCII letters. *)
Definition lower_char (a : ascii) : ascii :=
  if between 65 90 a then ascii_of_N (code a + 32) else a.

Fixpoint lower (s : string) : string :=
  match s with
  | EmptyString => EmptyString
  | String a r => String (lower_char a) (lower r)
  end.

Fixpoint strip_prefix (p s : string) : option string :=
  match p, s with
  | EmptyString, _ => Some s
  | String a p', String b s' =>
      if Ascii.eqb a b then strip_prefix p' s' else None
  | String _ _, EmptyString => None
  end.

Definition startswith (s p : string) : bool :=
  match strip_prefix p s with Some _ => true | None => false end.

Fixpoint rev_onto (s acc : string) : string :=
  match s with
  | EmptyString => acc
  | String a r => rev_onto r (String a acc)
  end.

Definition rev (s : string) : string := rev_onto s EmptyString.

Definition endswith (s p : string) : bool := startswith (rev s) (rev p).

(** [s.split(sep)] for a one-byte separator: never the empty list. *)
Fixpoint split (sep : ascii) (s : string) : list string :=
  match s with
  | EmptyString => [EmptyString]
  | String a r =>
      if Ascii.eqb a sep then EmptyString :: split sep r
      else match split sep r with
           | x :: xs => String a x :: xs
           | [] => [String a EmptyString]
           end
  end.

(** [s.rfind(c)]: the text before the last [c] and the text after it. *)
Fixpoint rsplit1 (c : ascii) (s : string) : option (string * string) :=
  match s with
  | EmptyString => None
  | String a r =>
      match rsplit1 c r with
      | Some (h, t) => Some (String a h, t)
      | None => if Ascii.eqb a c then Some (EmptyString, r) else None
      end
  end.

End Bytes.

(** ** The fragment of [re] the script uses

    A pattern is a sequence of items; repetition is greedy and backtracks
    as [re] does: the longest run is tried first, then shorter ones. *)

Module Re.

Inductive item :=
| lit (s : string)                 (* literal text *)
| many1 (c : ascii -> bool)        (* one or more of a class *)
| group1 (c : ascii -> bool)       (* a group of one or more of a class *)
| group0 (c : ascii -> bool)       (* a group of zero or more of a class *)
| eos.                             (* end of the text *)

Section Repeat.
Context {R : Type} (k : string -> option R) (c : ascii -> bool).

(** Zero or more of [c], then the continuation [k]. *)
Fixpoint star (s : string) : option (string * R) :=
  match s with
  | String a r =>
      if c a then
        match star r with
        | Some (m, x) => Some (String a m, x)
        | None => option_map (pair EmptyString) (k s)
        end
      else option_map (pair EmptyString) (k s)
  | EmptyString => option_map (pair EmptyString) (k s)
  end.

Definition plus (s : string) : option (string * R) :=
  match s with
  | String a r =>
      if c a then
        match star r with
        | Some (m, x) => Some (String a m, x)
        | None => None
        end
      else None
  | EmptyString => None
  end.
End Repeat.

(** [re.match(p, s)]: anchored at the start, the groups in order. *)
Fixpoint rmatch (p : list item) (s : string) : option (list string) :=
  match p with
  | [] => Some []
  | lit l :: p' =>
      match Bytes.strip_prefix l s with
      | Some r => rmatch p' r
      | None => None
      end
  | many1 c :: p' => option_map snd (plus (rmatch p') c s)
  | group1 c :: p' =>
      option_map (fun '(g, gs) => g :: gs) (plus (rmatch p') c s)
  | group0 c :: p' =>
      option_map (fun '(g, gs) => g :: gs) (star (rmatch p') c s)
  | eos :: p' =>
      match s with
      | EmptyString => rmatch p' s
      | String _ _ => None
      end
  end.

(** Character classes of a bytes pattern. *)
Definition space (a : ascii) : bool :=
  Bytes.between 9 13 a || Bytes.between 32 32 a.
Definition digit (a : ascii) : bool := Bytes.between 48 57 a.
Definition alpha (a : ascii) : bool :=
  Bytes.between 65 90 a || Bytes.between 97 122 a.
Definition dot (a : ascii) : bool := negb (Bytes.between 10 10 a).

End Re.

(** ** Exceptions and results *)

Inductive exn :=
| RuntimeError (msg : string)
| ValueError (msg : string)
| UnicodeDecodeError
| OSError (path : string)
| CalledProcessError (cmd : list string) (returncode : Z)
| AssertionError
| IndexError
| BadZipFile (path : string).

Inductive result (A : Type) :=
| Ok (a : A)
| Raise (e : exn).
Arguments Ok {A} a.
Arguments Raise {A} e.

Definition raised {A} (r : result A) : bool :=
  match r with Ok _ => false | Raise _ => true end.

(** [except RuntimeError]; [except EnvironmentError] is [except OSError]. *)
Definition is_RuntimeError (e : exn) : bool :=
  match e with RuntimeError _ => true | _ => false end.
Definition is_EnvironmentError (e : exn) : bool :=
  match e with OSError _ => true | _ => false end.

(** ** Tag containers and deferred setters *)

(** What the setters store: a text, or the pair [(int(x), None)]. *)
Inductive pyval :=
| PStr (s : string)
| PTrack (n : Z) (total : option Z).

(** An [eyed3] tag as the attributes [setattr] writes. *)
Abbreviation Tag := (gmap string pyval).

(** The two conversions [f] handed to [_setter]. *)
Inductive conv :=
| conv_id          (* [lambda x: x], the default *)
| conv_track.      (* [lambda x: (int(x), None)] *)

(** The closure [innermost] with the variables it captures. *)
Record setter := Setter { s_attr : string; s_f : conv; s_value : string }.

(** [_setter(attr, f)] returns [func]; [func(value)] returns [innermost]. *)
Definition _setter (attr : string) (f : option conv) : string -> setter :=
  let f := match f with None => conv_id | Some g => g end in
  fun value => Setter attr f value.

Definition TAG_MAP : gmap string (string -> setter) :=
  <["TITLE" := _setter "title" None]>
  (<["ARTIST" := _setter "artist" None]>
  (<["ALBUM" := _setter "album" None]>
  (<["TRACKNUMBER" := _setter "track_num" (Some conv_track)]>
  (<["DATE" := _setter "year" None]>
  (<["ALBUMARTIST" := _setter "album_artist" None]> ∅))))).

(** ** [metaflac_stdout_to_setters] *)

(** Strict UTF-8, as [bytes.decode('utf-8')] checks it: [need] continuation
    bytes are still due and the next one lies in [lo..hi]. *)
Fixpoint utf8_scan (need : nat) (lo hi : N) (s : string) : bool :=
  match s with
  | EmptyString => match need with O => true | S _ => false end
  | String a r =>
      match need with
      | S n => Bytes.between lo hi a && utf8_scan n 128 191 r
      | O =>
          if Bytes.between 0 127 a then utf8_scan 0 128 191 r
          else if Bytes.between 194 223 a then utf8_scan 1 128 191 r
          else if Bytes.between 224 224 a then utf8_scan 2 160 191 r
          else if Bytes.between 237 237 a then utf8_scan 2 128 159 r
          else if Bytes.between 225 239 a then utf8_scan 2 128 191 r
          else if Bytes.between 240 240 a then utf8_scan 3 144 191 r
          else if Bytes.between 241 243 a then utf8_scan 3 128 191 r
          else if Bytes.between 244 244 a then utf8_scan 3 128 143 r
          else false
      end
  end.

Definition decode_utf8 (b : string) : result string :=
  if utf8_scan 0 128 191 b then Ok b else Raise UnicodeDecodeError.

(** The pattern of a comment line: white space, [comment[], digits, []: ],
    a key over letters, digits, space and underscore, [=], and the rest. *)
Definition key_char (a : ascii) : bool :=
  Re.alpha a || Bytes.between 32 32 a || Re.digit a || Bytes.between 95 95 a.

Definition COMMENT_PAT : list Re.item :=
  [Re.many1 Re.space; Re.lit "comment["; Re.many1 Re.digit; Re.lit "]: ";
   Re.group1 key_char; Re.lit "="; Re.group0 Re.dot].

Definition match_comment (line : string) : option (string * string) :=
  match Re.rmatch COMMENT_PAT line with
  | Some [key; value] => Some (key, value)
  | _ => None
  end.

(** The generator, consumed by [list(...)]: the setters of the lines up to
    the end, or the first exception. *)
Fixpoint setters_of_lines (lines : list string) : result (list setter) :=
  match lines with
  | [] => Ok []
  | line :: rest =>
      match match_comment line with
      | Some (key, value) =>
          match TAG_MAP !! key with
          | Some attrfunc =>
              match decode_utf8 value with
              | Ok text =>
                  match setters_of_lines rest with
                  | Ok l => Ok (attrfunc text :: l)
                  | Raise e => Raise e
                  end
              | Raise e => Raise e
              end
          | None => setters_of_lines rest
          end
      | None => setters_of_lines rest
      end
  end.

Definition newline : ascii := ascii_of_N 10.

Definition metaflac_stdout_to_setters (output : string) : result (list setter) :=
  setters_of_lines (Bytes.split newline output).

(** ** The host and the world *)

(** A child process as the script sees it after it has exited. *)
Record proc := Proc {
  p_stdout : string;             (* what it wrote to its standard output *)
  p_returncode : Z;
  p_creates : list string        (* the files it left behind *)
}.

(** What is outside the script.  A command line that cannot be started
    ([h_run] is [None]) is an [OSError] in the caller. *)
Record Host := {
  h_int : string -> option Z;           (* [int(x)]; [None] is ValueError *)
  h_run : list string -> option proc;   (* a child process, by its argv *)
  h_unlink_denied : string -> bool;     (* [os.remove] refused on a file *)
  h_save_denied : string -> bool;       (* [tag.save] fails *)
  h_archive : string -> option (list string)
                                        (* member files of a zip archive *)
}.

Inductive level := DEBUG | INFO | WARNING | ERROR.

Inductive event :=
| EvSpawn (argv : list string)            (* one child process started *)
| EvPipe (chain : list (list string))     (* a chain of processes run *)
| EvRemove (path : string) (done : bool)  (* [os.remove] called *)
| EvMakedirs (path : string)
| EvExtract (archive dest : string)
| EvSave (path : string) (tag : Tag)      (* tag written to the file *)
| EvLog (lvl : level) (msg : string).

Record World := mkWorld {
  files : gset string;          (* regular files *)
  dirs : gset string;           (* directories *)
  tags : gmap string Tag;       (* the tag stored in each audio file *)
  trace : list event            (* what happened so far, oldest first *)
}.

Definition M (A : Type) : Type := World -> result A * World.

Definition ret {A} (a : A) : M A := fun w => (Ok a, w).
Definition raise {A} (e : exn) : M A := fun w => (Raise e, w).
Definition bind {A B} (m : M A) (k : A -> M B) : M B :=
  fun w => match m w with
           | (Ok a, w') => k a w'
           | (Raise e, w') => (Raise e, w')
           end.
(** [try: m] with the outcome as a value. *)
Definition try {A} (m : M A) : M (result A) :=
  fun w => let '(r, w') := m w in (Ok r, w').
Definition lift {A} (r : result A) : M A := fun w => (r, w).

Declare Scope py_scope.
Delimit Scope py_scope with py.
Notation "x <- m ;; k" := (bind m (fun x => k))
  (at level 100, m at next level, right associativity) : py_scope.
Notation "m ;; k" := (bind m (fun _ => k))
  (at level 100, right associativity) : py_scope.
Open Scope py_scope.

Definition emit (ev : event) : M unit :=
  fun w => (Ok tt, mkWorld (files w) (dirs w) (tags w) (trace w ++ [ev])).

Definition log (lvl : level) (msg : string) : M unit := emit (EvLog lvl msg).

Definition exists_in (w : World) (p : string) : bool :=
  bool_decide (p ∈ files w) || bool_decide (p ∈ dirs w).

(** [os.path.exists] *)
Definition path_exists (p : string) : M bool := fun w => (Ok (exists_in w p), w).

(** The files a finished process leaves: new files carry no stored tag. *)
Definition created (l : list string) (w : World) : World :=
  mkWorld (files w ∪ list_to_set l) (dirs w)
          (foldr delete (tags w) l) (trace w).

(** [os.remove]: only a regular file can be removed, and the host may
    refuse. *)
Definition os_remove (H : Host) (p : string) : M unit :=
  fun w =>
    if bool_decide (p ∈ files w) && negb (h_unlink_denied H p) then
      (Ok tt, mkWorld (files w ∖ {[p]}) (dirs w) (delete p (tags w))
                      (trace w ++ [EvRemove p true]))
    else
      (Raise (OSError p),
       mkWorld (files w) (dirs w) (tags w) (trace w ++ [EvRemove p false])).

Definition leave (l : list string) : M unit := fun w => (Ok tt, created l w).

(** One child process run to its end. *)
Definition spawn (H : Host) (argv : list string) : M proc :=
  emit (EvSpawn argv) ;;
  match h_run H argv with
  | Some p => leave (p_creates p) ;; ret p
  | None => raise (OSError (default "" (head argv)))
  end.

(** ** Paths *)

Definition slash : ascii := "/"%char.
Definition period : ascii := "."%char.

(** [os.path.join] of two components. *)
Definition path_join (a b : string) : string :=
  if Bytes.startswith b "/" then b
  else if String.eqb a "" || Bytes.endswith a "/" then a ++ b
  else a ++ "/" ++ b.

Definition split_dir (p : string) : string * string :=
  match Bytes.rsplit1 slash p with
  | Some (d, name) => (d ++ "/", name)
  | None => ("", p)
  end.

Definition basename (p : string) : string := snd (split_dir p).

Fixpoint all_periods (s : string) : bool :=
  match s with
  | EmptyString => true
  | String a r => Ascii.eqb a period && all_periods r
  end.

(** [os.path.splitext]: the extension starts at the last period of the
    last component, unless only periods precede it there. *)
Definition splitext (p : string) : string * string :=
  let '(d, name) := split_dir p in
  match Bytes.rsplit1 period name with
  | Some (stem, ext) =>
      if all_periods stem then (p, "") else (d ++ stem, "." ++ ext)
  | None => (p, "")
  end.

(** ** Tag extraction and tag writing *)

Definition metaflac_cmd_args (flac_path : string) : list string :=
  ["metaflac"; "--list"; "--no-utf8-convert";
   "--block-type=VORBIS_COMMENT"; flac_path].

Definition get_tag_setters (H : Host) (flac_path : string) : M (list setter) :=
  let cmd := metaflac_cmd_args flac_path in
  p <- spawn H cmd ;;
  lift (metaflac_stdout_to_setters (p_stdout p)).

(** [f(value)] inside [innermost]. *)
Definition apply_conv (H : Host) (f : conv) (value : string) : result pyval :=
  match f with
  | conv_id => Ok (PStr value)
  | conv_track =>
      match h_int H value with
      | Some n => Ok (PTrack n None)
      | None => Raise (ValueError value)
      end
  end.

(** Calling the closure: [setattr(tag, attr, f(value))]. *)
Definition call_setter (H : Host) (s : setter) (tag : Tag) : result Tag :=
  match apply_conv H (s_f s) (s_value s) with
  | Ok v => Ok (<[s_attr s := v]> tag)
  | Raise e => Raise e
  end.

(** [for setter in setters: setter(mp3.tag)] *)
Fixpoint apply_setters (H : Host) (setters : list setter) (tag : Tag)
  : result Tag :=
  match setters with
  | [] => Ok tag
  | s :: rest =>
      match call_setter H s tag with
      | Ok tag' => apply_setters H rest tag'
      | Raise e => Raise e
      end
  end.

(** [eyed3.load(path)] needs the file; the tag it finds is the stored one,
    empty in a file that was just encoded. *)
Definition set_tags (H : Host) (path : string) (setters : list setter) : M unit :=
  fun w =>
    if bool_decide (path ∈ files w) then
      match apply_setters H setters (default ∅ (tags w !! path)) with
      | Ok tag =>
          if h_save_denied H path then (Raise (OSError path), w)
          else (Ok tt, mkWorld (files w) (dirs w) (<[path := tag]> (tags w))
                               (trace w ++ [EvSave path tag]))
      | Raise e => (Raise e, w)
      end
    else (Raise (OSError path), w).

(** ** The process chain *)

(** [asyncpipe.PipeBuilder]: the commands chained so far. *)
Definition PipeBuilder : list (list string) := [].
Definition chain (pipe : list (list string)) (cmd : list string)
  : list (list string) := pipe ++ [cmd].

Fixpoint run_chain (H : Host) (cmds : list (list string)) : M (list proc) :=
  match cmds with
  | [] => ret []
  | c :: rest =>
      match h_run H c with
      | Some p =>
          leave (p_creates p) ;;
          ps <- run_chain H rest ;;
          ret (p :: ps)
      | None => raise (OSError (default "" (head c)))
      end
  end.

(** [pipe.call_async()]: one result per command, in chain order. *)
Definition call_async (H : Host) (pipe : list (list string)) : M (list proc) :=
  emit (EvPipe pipe) ;; run_chain H pipe.

Definition pipe_cmds (H : Host) (cmd_args_1 cmd_args_2 : list string) : M Z :=
  let pipe := PipeBuilder in
  let pipe := chain (chain pipe cmd_args_1) cmd_args_2 in
  result <- call_async H pipe ;;
  match last result with
  | Some p => ret (p_returncode p)
  | None => raise IndexError
  end.

(** ** The pipeline of one file *)

Definition flac_args (flac_path : string) : list string :=
  ["flac"; "--silent"; "--stdout"; "--decode"; flac_path].

Definition lame_args (mp3_path : string) : list string :=
  ["lame"; "-V0"; "--add-id3v2"; "--pad-id3v2"] ++ ["-"; mp3_path].

Definition convert_file_only (H : Host) (flac_path mp3_path : string) : M unit :=
  setters <- get_tag_setters H flac_path ;;
  returncode <- pipe_cmds H (flac_args flac_path) (lame_args mp3_path) ;;
  if negb (returncode =? 0) then
    (* try: os.remove(mp3_path)  except: pass *)
    _ <- try (os_remove H mp3_path) ;;
    raise (RuntimeError "lame failed!")
  else ret tt.

(** [asyncio.gather] of two coroutines: both are started and run; the
    results are paired, or an exception is delivered.  When both raise,
    the one delivered is the one raised first; the model takes the first
    child's. *)
Definition gather2 {A B} (a : M A) (b : M B) : M (A * B) :=
  ra <- try a ;;
  rb <- try b ;;
  match ra, rb with
  | Ok x, Ok y => ret (x, y)
  | Raise e, _ => raise e
  | Ok _, Raise e => raise e
  end.

Definition mp3_path_of (flac_path : string) : string :=
  fst (splitext flac_path) ++ ".mp3".

(** [convert_flac] up to its first suspension: the entry guard.  [true]
    means the coroutine goes on. *)
Definition convert_flac_enter (flac_path : string) : M bool :=
  let mp3_path := mp3_path_of flac_path in
  ex <- path_exists mp3_path ;;
  if ex then
    log WARNING ("file already exists at " ++ mp3_path ++ ", skipping") ;;
    ret false
  else ret true.

(** [convert_flac] from the inner [gather] on. *)
Definition convert_flac_join (H : Host) (flac_path : string)
  : M (option string) :=
  let mp3_path := mp3_path_of flac_path in
  let tag_setters := get_tag_setters H flac_path in
  let conversion := convert_file_only H flac_path mp3_path in
  r <- try (gather2 tag_setters conversion) ;;
  match r with
  | Raise e => if is_RuntimeError e then ret None else raise e
  | Ok (setters, _) =>
      set_tags H mp3_path setters ;;
      log DEBUG ("wrote tag for " ++ mp3_path ++ ", removing original") ;;
      os_remove H flac_path ;;
      ret (Some mp3_path)
  end.

Definition convert_flac (H : Host) (flac_path : string) : M (option string) :=
  go <- convert_flac_enter flac_path ;;
  if go then convert_flac_join H flac_path else ret None.

(** ** Discovery

    A file is the path text under which the script reaches it; a
    directory holds the paths that extend its own by [/] and a name. *)

Definition below (top f : string) : option string :=
  let base := if Bytes.endswith top "/" then top else top ++ "/" in
  match Bytes.strip_prefix base f with
  | Some EmptyString => None
  | r => r
  end.

Fixpoint has_slash (s : string) : bool :=
  match s with
  | EmptyString => false
  | String a r => Ascii.eqb a slash || has_slash r
  end.

(** [os.walk]: every file below [path], nothing when it is no directory. *)
Definition recurse (path : string) : M (list string) :=
  fun w =>
    (Ok (if bool_decide (path ∈ dirs w)
         then List.filter (fun f => bool_decide (is_Some (below path f)))
                          (elements (files w))
         else []), w).

(** [os.listdir] raises on what is no directory. *)
Definition shallow (path : string) : M (list string) :=
  fun w =>
    if bool_decide (path ∈ dirs w) then
      (Ok (List.filter (fun f => match below path f with
                            | Some name => negb (has_slash name)
                            | None => false
                            end) (elements (files w))), w)
    else (Raise (OSError path), w).

Definition get_all_matching (path search_ext : string) (descend : bool)
  : M (list string) :=
  let search_ext := Bytes.lower search_ext in
  if Bytes.endswith (Bytes.lower path) search_ext then ret [path]
  else
    found <- (if descend then recurse path else shallow path) ;;
    ret (List.filter (fun p => Bytes.endswith (Bytes.lower p) search_ext) found).

(** ** Archives *)

(** The classes of a text pattern, by byte: the bytes of a character
    outside ASCII count as word characters. *)
Definition word_char (a : ascii) : bool :=
  Re.alpha a || Re.digit a || Bytes.between 95 95 a || Bytes.between 128 255 a.
Definition text_space (a : ascii) : bool :=
  Bytes.between 9 13 a || Bytes.between 28 32 a.
Definition happy_char (a : ascii) : bool :=
  word_char a || text_space a || Re.digit a.

Definition HAPPY_ZIP_PAT : list Re.item :=
  [Re.group1 happy_char; Re.lit " - "; Re.group1 happy_char; Re.eos].
Definition CHECK_ZIP_PAT : list Re.item :=
  [Re.group1 Re.dot; Re.lit " - "; Re.group1 Re.dot; Re.eos].

(** [os.path.join( *match.groups())] *)
Definition join_groups (groups : list string) : string :=
  match groups with
  | [] => ""
  | g :: gs => foldl path_join g gs
  end.

Definition generate_dest_dir_name (path : string) : M (option string) :=
  let '(filename, ext) := splitext path in
  let basename := basename filename in
  if negb (String.eqb (Bytes.lower ext) ".zip") then raise AssertionError
  else
    match Re.rmatch HAPPY_ZIP_PAT basename with
    | Some groups => ret (Some (join_groups groups))
    | None =>
        match Re.rmatch CHECK_ZIP_PAT basename with
        | Some groups =>
            log WARNING ("Did not match the happy zip pattern for " ++ path
                         ++ ", check names") ;;
            ret (Some (join_groups groups))
        | None =>
            log ERROR ("Zip file " ++ path
                       ++ " does not match the expected pattern!") ;;
            ret None
        end
    end.

(** The directories above [p], outermost first. *)
Fixpoint parents_from (pre s : string) : list string :=
  match s with
  | EmptyString => []
  | String a r =>
      (if Ascii.eqb a slash && negb (String.eqb pre "") then [pre] else [])
      ++ parents_from (pre ++ String a EmptyString) r
  end.
Definition parents (p : string) : list string := parents_from "" p.

(** [os.makedirs]: the leaf must be new and nothing above it a file. *)
Definition os_makedirs (p : string) : M unit :=
  fun w =>
    if exists_in w p
       || existsb (fun d => bool_decide (d ∈ files w)) (parents p)
    then (Raise (OSError p), w)
    else (Ok tt, mkWorld (files w) (dirs w ∪ list_to_set (parents p) ∪ {[p]})
                         (tags w) (trace w ++ [EvMakedirs p])).

(** [ZipFile(path).extractall(dest)]: the member files appear below
    [dest], with the directories they need. *)
Definition extractall (H : Host) (path dest : string) : M unit :=
  match h_archive H path with
  | None => raise (BadZipFile path)
  | Some members =>
      fun w =>
        let new := map (path_join dest) members in
        (Ok tt,
         mkWorld (files w ∪ list_to_set new)
                 (dirs w ∪ list_to_set (flat_map parents new))
                 (foldr delete (tags w) new)
                 (trace w ++ [EvExtract path dest]))
  end.

Definition unzip_serial (H : Host) (path dest_root : string)
  : M (option string) :=
  dest_dir_name <- generate_dest_dir_name path ;;
  match dest_dir_name with
  | None => ret None
  | Some EmptyString => ret None
  | Some dest_dir_name =>
      let dest := path_join dest_root dest_dir_name in
      ex <- path_exists dest ;;
      if ex then
        log WARNING ("Destination path " ++ dest
                     ++ " already exists, skipping unzip") ;;
        ret None
      else
        os_makedirs dest ;;
        extractall H path dest ;;
        log INFO ("Unzipped to " ++ dest) ;;
        ret (Some dest)
  end.

Definition unzip (H : Host) (path dest_root : string) : M (option string) :=
  unzip_serial H path dest_root.

(** ** The coordinator *)

Fixpoint mapM {A B} (f : A -> M B) (l : list A) : M (list B) :=
  match l with
  | [] => ret []
  | a :: rest => b <- f a ;; bs <- mapM f rest ;; ret (b :: bs)
  end.

(** The loops of [main_loop]: the source files for which a pipeline
    coroutine is created, in order. *)
Definition scan_zip (H : Host) (dest_root zippath : string) : M (list string) :=
  dirname <- unzip H zippath dest_root ;;
  match dirname with
  | None => ret []
  | Some dirname => get_all_matching dirname ".flac" true
  end.

Definition scan_path (H : Host) (dest_root : string) (descend : bool)
  (path : string) : M (list string) :=
  zips <- get_all_matching path ".zip" descend ;;
  found <- mapM (scan_zip H dest_root) zips ;;
  ret (List.concat found).

(** [asyncio.gather] of the pipelines.  Every coroutine first runs to its
    first suspension, which is past its entry guard; then the pipelines
    that go on are run, here one after the other in creation order.  The
    outcome of each is kept; [gather] delivers the first exception, if
    any.  Pipelines still in flight when the exception reaches [main] are
    abandoned by the event loop; here they are run to their end. *)
Definition run_entered (H : Host) (job : string * bool)
  : M (result (option string)) :=
  if snd job then try (convert_flac_join H (fst job)) else ret (Ok None).

Definition run_pipelines (H : Host) (flacs : list string)
  : M (list (result (option string))) :=
  entered <- mapM convert_flac_enter flacs ;;
  mapM (run_entered H) (zip flacs entered).

Fixpoint deliver {A} (rs : list (result A)) : result (list A) :=
  match rs with
  | [] => Ok []
  | Raise e :: _ => Raise e
  | Ok a :: rest =>
      match deliver rest with
      | Ok l => Ok (a :: l)
      | Raise e => Raise e
      end
  end.

Definition gather (H : Host) (flacs : list string) : M (list (option string)) :=
  rs <- run_pipelines H flacs ;;
  lift (deliver rs).

Definition main_loop (H : Host) (dest_root : string) (paths : list string)
  (descend : bool) : M unit :=
  found <- mapM (scan_path H dest_root descend) paths ;;
  let all_converted_files := List.concat found in
  _ <- gather H all_converted_files ;;
  ret tt.

(** ** Start-up *)

Definition check_call (H : Host) (argv : list string) : M unit :=
  p <- spawn H argv ;;
  if p_returncode p =? 0 then ret tt
  else raise (CalledProcessError argv (p_returncode p)).

Definition REQUIRED : list string := ["flac"; "lame"; "metaflac"].

Fixpoint probe (H : Host) (cmds missing : list string) : M (list string) :=
  match cmds with
  | [] => ret missing
  | cmd :: rest =>
      r <- try (check_call H [cmd; "--help"]) ;;
      match r with
      | Ok _ => probe H rest missing
      | Raise e =>
          if is_EnvironmentError e then probe H rest (missing ++ [cmd])
          else raise e
      end
  end.

(** [repr] of a list of plain command names. *)
Definition repr_names (l : list string) : string :=
  "[" ++ String.concat ", " (map (fun s => "'" ++ s ++ "'") l) ++ "]".

Definition check_commands (H : Host) : M unit :=
  missing <- probe H REQUIRED [] ;;
  match missing with
  | [] => ret tt
  | _ => raise (RuntimeError ("missing commands: " ++ repr_names missing))
  end.

(** [main] after [parse_args]. *)
Definition main (H : Host) (unpack_dir : string) (paths : list string)
  (descend : bool) : M unit :=
  check_commands H ;;
  main_loop H unpack_dir paths descend ;;
  log INFO "Done!".

(** ** Concrete hosts and worlds for the examples *)

Definition nl : string := String newline EmptyString.

Definition sample_listing : string :=
  "METADATA block #2" ++ nl ++
  "  type: 4 (VORBIS_COMMENT)" ++ nl ++
  "  comments: 3" ++ nl ++
  "    comment[0]: TITLE=Foo" ++ nl ++
  "    comment[1]: COMMENT=ignored" ++ nl ++
  "    comment[2]: ARTIST=Bar" ++ nl.

Definition twice_listing : string :=
  "    comment[0]: TITLE=First" ++ nl ++
  "    comment[1]: TRACKNUMBER=7" ++ nl ++
  "    comment[2]: TITLE=Second" ++ nl.

Definition seven_listing : string := "    comment[0]: TRACKNUMBER=seven".

(** A decimal [int] for the examples: an optional sign and digits. *)
Fixpoint digits_value (acc : Z) (s : string) : option Z :=
  match s with
  | EmptyString => Some acc
  | String a r =>
      if Re.digit a then digits_value (10 * acc + Z.of_N (Bytes.code a) - 48) r
      else None
  end.

Definition int_ascii (s : string) : option Z :=
  match s with
  | EmptyString => None
  | String a r =>
      if Ascii.eqb a "-"%char then
        match r with
        | EmptyString => None
        | _ => option_map Z.opp (digits_value 0 r)
        end
      else if Ascii.eqb a "+"%char then
        match r with EmptyString => None | _ => digits_value 0 r end
      else digits_value 0 s
  end.

(** Tools that answer by name: [metaflac] prints [listing] for the file
    given, [flac] and [lame] exit with the given codes, [lame] leaves its
    output file, [--help] succeeds. *)
Definition demo_run (listing : string -> string) (flac_rc lame_rc : Z)
  (argv : list string) : option proc :=
  match argv with
  | [_; "--help"] => Some (Proc "usage" 0 [])
  | "metaflac" :: rest => Some (Proc (listing (default "" (last rest))) 0 [])
  | "flac" :: _ => Some (Proc "" flac_rc [])
  | "lame" :: rest => Some (Proc "" lame_rc (option_list (last rest)))
  | _ => None
  end.

Definition demo_archive (z : string) : option (list string) :=
  if String.eqb z "in/Art - Alb.zip" then Some ["01.flac"; "02.flac"] else None.

Definition demo_host (listing : string) (flac_rc lame_rc : Z) : Host :=
  {| h_int := int_ascii; h_run := demo_run (fun _ => listing) flac_rc lame_rc;
     h_unlink_denied := fun _ => false; h_save_denied := fun _ => false;
     h_archive := demo_archive |}.

(** As [demo_host], but [os.remove] is refused. *)
Definition stubborn_host (listing : string) (flac_rc lame_rc : Z) : Host :=
  {| h_int := int_ascii; h_run := demo_run (fun _ => listing) flac_rc lame_rc;
     h_unlink_denied := fun _ => true; h_save_denied := fun _ => false;
     h_archive := demo_archive |}.


(** No tool is installed. *)
Definition bare_host : Host :=
  {| h_int := int_ascii; h_run := fun _ => None;
     h_unlink_denied := fun _ => false; h_save_denied := fun _ => false;
     h_archive := demo_archive |}.

(** A tool that is absent, one whose [--help] fails, and one that is
    fine. *)
Definition grumpy_host : Host :=
  {| h_int := int_ascii;
     h_run := fun argv =>
       match argv with
       | ["flac"; "--help"] => None
       | ["lame"; "--help"] => Some (Proc "" 1 [])
       | _ => Some (Proc "" 0 [])
       end;
     h_unlink_denied := fun _ => false; h_save_denied := fun _ => false;
     h_archive := demo_archive |}.

Definition demo_world : World := mkWorld {[ "m/a.flac" ]} {[ "m" ]} ∅ [].

Definition inbox_world : World :=
  mkWorld {[ "in/Art - Alb.zip" ]} {[ "in"; "out" ]} ∅ [].

(** ** The listing as the specification reads it *)

(** The [KEY=value] pairs of the comment lines, in listing order. *)
Definition comment_lines (output : string) : list (string * string) :=
  omap match_comment (Bytes.split newline output).

(** The six recognised keys with their field and conversion. *)
Definition FIELDS : list (string * (string * conv)) :=
  [("TITLE", ("title", conv_id)); ("ARTIST", ("artist", conv_id));
   ("ALBUM", ("album", conv_id)); ("TRACKNUMBER", ("track_num", conv_track));
   ("DATE", ("year", conv_id)); ("ALBUMARTIST", ("album_artist", conv_id))].

Fixpoint field_of (table : list (string * (string * conv))) (key : string)
  : option (string * conv) :=
  match table with
  | [] => None
  | (k, row) :: rest => if String.eqb key k then Some row else field_of rest key
  end.

(** The assignment a comment stands for, if its key is recognised. *)
Definition assignment (kv : string * string) : option setter :=
  match field_of FIELDS (fst kv) with
  | Some (attr, f) => Some (Setter attr f (snd kv))
  | None => None
  end.

Definition well_encoded (output : string) : bool :=
  forallb (fun kv => match assignment kv with
                     | Some _ => utf8_scan 0 128 191 (snd kv)
                     | None => true
                     end) (comment_lines output).

(** The value of the last comment with the given key. *)
Definition last_value (key : string) (kvs : list (string * string))
  : option string :=
  last (map snd (List.filter (fun kv => String.eqb (fst kv) key) kvs)).

(** ** Vocabulary of the statements *)

(** The events of a pipeline that commits, in order. *)
Definition commit_trace (f : string) (tag : Tag) : list event :=
  let mp3 := mp3_path_of f in
  [EvSpawn (metaflac_cmd_args f); EvSpawn (metaflac_cmd_args f);
   EvPipe [flac_args f; lame_args mp3]; EvSave mp3 tag;
   EvLog DEBUG ("wrote tag for " ++ mp3 ++ ", removing original");
   EvRemove f true].

(** Whether a setter writes the attribute [a]. *)
Definition sets (a : string) (s : setter) : bool := String.eqb (s_attr s) a.

(** Every run of a computation takes the world to one related by [R]. *)
Definition steps {A} (R : relation World) (m : M A) : Prop :=
  forall w, R w (snd (m w)).

(** The trace grew by events that satisfy [P]. *)
Definition appends (P : event -> Prop) (w w' : World) : Prop :=
  exists evs, trace w' = (trace w ++ evs)%list /\ Forall P evs.

(** No directory went away. *)
Definition keeps_dirs (w w' : World) : Prop := dirs w ⊆ dirs w'.

(** Nothing on disk went away. *)
Definition keeps_disk (w w' : World) : Prop :=
  files w ⊆ files w' /\ dirs w ⊆ dirs w'.

(** The availability check of one tool. *)
Definition probe_event (cmd : string) : event := EvSpawn [cmd; "--help"].
Definition PROBES : list event := map probe_event REQUIRED.

Definition is_log (ev : event) : Prop :=
  match ev with EvLog _ _ => True | _ => False end.

(** [w'] differs from [w] by log lines only. *)
Definition quiet (w w' : World) : Prop :=
  files w' = files w /\ dirs w' = dirs w /\ tags w' = tags w /\
  exists logs, trace w' = (trace w ++ logs)%list /\ Forall is_log logs.

(** An archive that needs no unpacking: it has no destination name, or
    its destination is there. *)
Definition settled (dest_root : string) (w : World) (zippath : string) : Prop :=
  exists d, fst (generate_dest_dir_name zippath w) = Ok d /\
    match d with
    | None | Some EmptyString => True
    | Some name => exists_in w (path_join dest_root name) = true
    end.



(** Nothing went away except, possibly, files that satisfy [P]. *)
Definition spares (P : string -> Prop) (w w' : World) : Prop :=
  (forall q, q ∈ files w -> ~ P q -> q ∈ files w') /\ dirs w ⊆ dirs w'.


Fixpoint last_char (s : string) : option ascii :=
  match s with
  | EmptyString => None
  | String a EmptyString => Some a
  | String _ r => last_char r
  end.

Definition first_char (s : string) : option ascii :=
  match s with EmptyString => None | String a _ => Some a end.

Fixpoint has_char (c : ascii) (s : string) : bool :=
  match s with
  | EmptyString => false
  | String a r => Ascii.eqb a c || has_char c r
  end.

(** [root] as a prefix of what is joined to it. *)
Definition stem (root : string) : string :=
  if String.eqb root "" || Bytes.endswith root "/" then root else root ++ "/".


(** The stage-2 transcode of [f] is run and exits with a non-zero code. *)
Definition transcode_fails (H : Host) (f : string) : Prop :=
  exists pm setters pf pl,
    h_run H (metaflac_cmd_args f) = Some pm /\
    metaflac_stdout_to_setters (p_stdout pm) = Ok setters /\
    h_run H (flac_args f) = Some pf /\
    h_run H (lame_args (mp3_path_of f)) = Some pl /\
    p_returncode pl <> 0.

(** ** Vocabulary of the further properties *)

(** Every byte of [s] lies in the class [c]. *)
Fixpoint all_of (c : ascii -> bool) (s : string) : bool :=
  match s with
  | EmptyString => true
  | String a r => c a && all_of c r
  end.

(** [s] is empty or starts with a byte outside the class [c]. *)
Definition stops (c : ascii -> bool) (s : string) : bool :=
  match s with
  | EmptyString => true
  | String a _ => negb (c a)
  end.

Definition hyphen : ascii := "-"%char.



(** The closing line of [main]. *)
Definition DONE : event := EvLog INFO "Done!".


(** Every exception a computation can end with satisfies [Q]. *)
Definition raises {A} (Q : exn -> Prop) (m : M A) : Prop :=
  forall w e, fst (m w) = Raise e -> Q e.



Definition not_done (ev : event) : Prop := ev <> DONE.

(** The tools that cannot be started. *)
Definition cannot_start (H : Host) (cmd : string) : bool :=
  match h_run H [cmd; "--help"] with None => true | Some _ => false end.

(** A tool that is absent, or present and answering [--help] with 0. *)
Definition absent_or_fine (H : Host) (cmd : string) : Prop :=
  match h_run H [cmd; "--help"] with
  | None => True
  | Some p => p_returncode p = 0
  end.

(** The events of the pipeline of the source file [f]. *)
Definition concerns (f : string) (ev : event) : Prop :=
  match ev with
  | EvSpawn argv => argv = metaflac_cmd_args f
  | EvPipe c => c = [flac_args f; lame_args (mp3_path_of f)]
  | EvRemove p _ => p = f \/ p = mp3_path_of f
  | EvSave p _ => p = mp3_path_of f
  | _ => False
  end.




(** * Proofs *)

#[local] Set Warnings "-clear-no-such-hyp".

Ltac run :=
  cbv beta iota zeta delta
    [bind ret raise try lift emit log path_exists spawn leave get_tag_setters
     pipe_cmds call_async run_chain chain PipeBuilder convert_file_only
     gather2 convert_flac convert_flac_enter convert_flac_join set_tags
     os_remove created];
  cbn [files dirs tags trace fst snd app last].
Tactic Notation "run" "in" hyp(H) :=
  cbv beta iota zeta delta
    [bind ret raise try lift emit log path_exists spawn leave get_tag_setters
     pipe_cmds call_async run_chain chain PipeBuilder convert_file_only
     gather2 convert_flac convert_flac_enter convert_flac_join set_tags
     os_remove created] in H;
  cbn [files dirs tags trace fst snd app last] in H.

Lemma exists_in_false w p :
  exists_in w p = false <-> (p ∉ files w) /\ (p ∉ dirs w).
Proof.
  unfold exists_in. rewrite orb_false_iff, !bool_decide_eq_false. tauto.
Qed.

Ltac props :=
  repeat match goal with
  | H : bool_decide _ = true |- _ => apply bool_decide_eq_true in H
  | H : bool_decide _ = false |- _ => apply bool_decide_eq_false in H
  | H : _ && _ = true |- _ => apply andb_true_iff in H as [? ?]
  | H : _ || _ = false |- _ => apply orb_false_iff in H as [? ?]
  | H : negb _ = true |- _ => apply negb_true_iff in H
  | H : negb _ = false |- _ => apply negb_false_iff in H
  | H : (_ =? _) = true |- _ => apply Z.eqb_eq in H
  | H : (_ =? _) = false |- _ => apply Z.eqb_neq in H
  | H : exists_in _ _ = false |- _ => apply exists_in_false in H as [? ?]
  end.

(** Every outcome of the straight-line code, one goal per path. *)
Ltac paths Hrun :=
  run in Hrun;
  repeat (case_match; simplify_eq; cbn [files dirs tags trace last] in * );
  repeat match goal with
         | H1 : ?x = Ok _, H2 : ?x = _ |- _ => rewrite H1 in H2; simplify_eq
         end.

Lemma lower_app a b : Bytes.lower (a ++ b) = Bytes.lower a ++ Bytes.lower b.
Proof. induction a as [|c a IH]; simpl; [done | by rewrite IH]. Qed.

Lemma rev_onto_app a b acc :
  Bytes.rev_onto (a ++ b) acc = Bytes.rev_onto b (Bytes.rev_onto a acc).
Proof. revert acc. induction a as [|c a IH]; intros acc; simpl; [done | apply IH]. Qed.

Lemma endswith_lower_app x suf ext :
  Bytes.endswith (Bytes.lower (x ++ suf)) ext
  = Bytes.startswith (Bytes.rev_onto (Bytes.lower suf) (Bytes.rev (Bytes.lower x)))
                     (Bytes.rev ext).
Proof. unfold Bytes.endswith, Bytes.rev at 1. by rewrite lower_app, rev_onto_app. Qed.


Lemma pipe_cmds_spec H c1 c2 w p1 p2 :
  h_run H c1 = Some p1 -> h_run H c2 = Some p2 ->
  pipe_cmds H c1 c2 w
  = (Ok (p_returncode p2),
     created (p_creates p2) (created (p_creates p1)
       (mkWorld (files w) (dirs w) (tags w) (trace w ++ [EvPipe [c1; c2]])))).
Proof.
  intros H1 H2. run. rewrite H1. run. rewrite H2. run. reflexivity.
Qed.



Lemma lookup_foldr_delete (m : gmap string Tag) (l : list string) k :
  foldr delete m l !! k = if decide (k ∈ l) then None else m !! k.
Proof.
  induction l as [|a l IH]; cbn [foldr].
  - destruct (decide (k ∈ [])) as [Hin|]; [by apply elem_of_nil in Hin | done].
  - rewrite lookup_delete, IH.
    destruct (decide (a = k)) as [->|Hne], (decide (k ∈ l)), (decide (k ∈ _ :: l));
      try done; set_solver.
Qed.

Lemma convert_flac_commit H f w o w' :
  convert_flac H f w = (Ok (Some o), w') ->
  exists pm pf pl setters tag,
    o = mp3_path_of f /\
    exists_in w (mp3_path_of f) = false /\
    h_run H (metaflac_cmd_args f) = Some pm /\
    metaflac_stdout_to_setters (p_stdout pm) = Ok setters /\
    h_run H (flac_args f) = Some pf /\
    h_run H (lame_args (mp3_path_of f)) = Some pl /\
    p_returncode pl = 0 /\
    apply_setters H setters ∅ = Ok tag /\
    h_save_denied H (mp3_path_of f) = false /\
    trace w' = (trace w ++ commit_trace f tag)%list /\
    (f ∉ files w') /\
    (mp3_path_of f <> f ->
       mp3_path_of f ∈ files w' /\ tags w' !! mp3_path_of f = Some tag).
Proof.
  intros Hrun. paths Hrun. props.
  match goal with
  | Ha : apply_setters _ _ (default ∅ ?o) = Ok _ |- _ =>
      assert (o = None) as Hnone
  end.
  { rewrite !lookup_foldr_delete. repeat case_decide; try done. set_solver. }
  rewrite Hnone in *. cbn [default] in *.
  eexists _, _, _, _, _. split_and!; try done; try eassumption.
  - unfold commit_trace. by rewrite <- !app_assoc.
  - set_solver.
  - intros Hne. split; [set_solver |].
    by rewrite lookup_delete_ne, lookup_insert_eq.
Qed.

Lemma convert_flac_skip H f w :
  exists_in w (mp3_path_of f) = true ->
  convert_flac H f w
  = (Ok None,
     mkWorld (files w) (dirs w) (tags w)
       (trace w ++ [EvLog WARNING ("file already exists at " ++ mp3_path_of f
                                   ++ ", skipping")])).
Proof. intros Hex. run. rewrite Hex. reflexivity. Qed.

Lemma transcode_failure H f w pm pf pl setters :
  exists_in w (mp3_path_of f) = false ->
  h_run H (metaflac_cmd_args f) = Some pm ->
  metaflac_stdout_to_setters (p_stdout pm) = Ok setters ->
  h_run H (flac_args f) = Some pf ->
  h_run H (lame_args (mp3_path_of f)) = Some pl ->
  p_returncode pl <> 0 ->
  exists w' done,
    convert_flac H f w = (Ok None, w') /\
    trace w' = (trace w ++
      [EvSpawn (metaflac_cmd_args f); EvSpawn (metaflac_cmd_args f);
       EvPipe [flac_args f; lame_args (mp3_path_of f)];
       EvRemove (mp3_path_of f) done])%list /\
    (h_unlink_denied H (mp3_path_of f) = false ->
       exists_in w' (mp3_path_of f) = false) /\
    (f ∈ files w -> f ∈ files w') /\
    dirs w' = dirs w.
Proof.
  intros Hex Hm Hs Hf Hl Hrc. apply Z.eqb_neq in Hrc.
  destruct (convert_flac H f w) as [r w'] eqn:Hrun.
  paths Hrun; props; try congruence;
    eexists _, _; (split; [reflexivity |]); cbn [files dirs tags trace];
    (split_and!; [by rewrite <- !app_assoc | | | done]).
  - intros _. apply exists_in_false; cbn [files dirs]. split; [|done].
    apply not_elem_of_difference. right. by apply elem_of_singleton.
  - intros Hin. apply elem_of_difference. split.
    + rewrite !elem_of_union. tauto.
    + intros Heq%elem_of_singleton. by rewrite Heq in Hin.
  - intros Hden. apply exists_in_false; cbn [files dirs]. split; [|done].
    match goal with
    | Hb : _ && _ = false |- _ =>
        rewrite Hden, andb_true_r in Hb; by apply bool_decide_eq_false in Hb
    end.
  - intros Hin. rewrite !elem_of_union. tauto.
Qed.



(** *** The coordinator's joint await *)







Lemma TAG_MAP_lookup key :
  TAG_MAP !! key
  = match field_of FIELDS key with
    | Some (attr, f) => Some (fun value => Setter attr f value)
    | None => None
    end.
Proof.
  unfold TAG_MAP. cbn [field_of FIELDS].
  repeat (rewrite lookup_insert;
          match goal with
          | |- context [String.eqb key ?k] =>
              destruct (String.eqb_spec key k) as [->|?];
              [by rewrite decide_True | rewrite decide_False by congruence]
          end).
  apply lookup_empty.
Qed.

Lemma setters_of_lines_spec lines :
  setters_of_lines lines
  = if forallb (fun kv => match assignment kv with
                          | Some _ => utf8_scan 0 128 191 (snd kv)
                          | None => true
                          end) (omap match_comment lines)
    then Ok (omap assignment (omap match_comment lines))
    else Raise UnicodeDecodeError.
Proof.
  induction lines as [|line rest IH]; [done |].
  cbn [setters_of_lines omap list_omap].
  destruct (match_comment line) as [[key value]|]; [| exact IH].
  cbn [omap list_omap forallb]. unfold assignment at 1 3. cbn [fst snd].
  rewrite TAG_MAP_lookup.
  destruct (field_of FIELDS key) as [[attr f]|]; [| exact IH].
  unfold decode_utf8. destruct (utf8_scan 0 128 191 value); [| done].
  rewrite IH. cbn [andb]. by case_match.
Qed.

Lemma metaflac_stdout_to_setters_spec output :
  metaflac_stdout_to_setters output
  = if well_encoded output
    then Ok (omap assignment (comment_lines output))
    else Raise UnicodeDecodeError.
Proof. apply setters_of_lines_spec. Qed.

Lemma extraction_ok output setters :
  metaflac_stdout_to_setters output = Ok setters ->
  setters = omap assignment (comment_lines output).
Proof.
  rewrite metaflac_stdout_to_setters_spec. case_match; congruence.
Qed.

(** *** Applying the setters: the last one per attribute stays *)


Lemma apply_setters_lookup H setters a : forall tag tag',
  apply_setters H setters tag = Ok tag' ->
  match last (List.filter (sets a) setters) with
  | Some s => exists x, apply_conv H (s_f s) (s_value s) = Ok x /\ tag' !! a = Some x
  | None => tag' !! a = tag !! a
  end.
Proof.
  induction setters as [|s rest IH]; intros tag tag' Happ.
  - cbn in Happ. by simplify_eq.
  - cbn [apply_setters] in Happ. unfold call_setter in Happ.
    destruct (apply_conv H (s_f s) (s_value s)) as [x|] eqn:Hx; [| done].
    specialize (IH _ _ Happ). cbn [List.filter]. unfold sets at 1.
    destruct (String.eqb_spec (s_attr s) a) as [Heq|Hne].
    + destruct (List.filter (sets a) rest) as [|s' l] eqn:Hf.
      * cbn in *. exists x. split; [done |]. by rewrite IH, Heq, lookup_insert_eq.
      * change (last (s :: s' :: l)) with (last (s' :: l)).
        destruct (last (s' :: l)) eqn:Hlast; [exact IH |].
        by apply last_None in Hlast.
    + destruct (last (List.filter (sets a) rest)); [done |].
      by rewrite IH, lookup_insert_ne.
Qed.

Lemma field_of_In table k row :
  field_of table k = Some row -> In (k, row) table.
Proof.
  induction table as [|[k' row'] rest IH]; [done |]. cbn.
  destruct (String.eqb_spec k k') as [->|?]; intros; simplify_eq; auto.
Qed.

Lemma field_of_row key row :
  In (key, row) FIELDS -> field_of FIELDS key = Some row.
Proof.
  cbn. intros Hin. repeat destruct Hin as [Hin|Hin]; try done; by simplify_eq.
Qed.

Lemma field_of_attr k key attr f f' :
  field_of FIELDS k = Some (attr, f') -> In (key, (attr, f)) FIELDS -> k = key.
Proof.
  cbn. intros Hk Hin.
  repeat match type of Hk with
         | context [String.eqb k ?c] =>
             destruct (String.eqb_spec k c) as [->|?]
         end;
  repeat destruct Hin as [Hin|Hin]; by simplify_eq.
Qed.

Lemma filter_assignments key attr f kvs :
  In (key, (attr, f)) FIELDS ->
  List.filter (sets attr) (omap assignment kvs)
  = map (Setter attr f)
        (map snd (List.filter (fun kv => String.eqb (fst kv) key) kvs)).
Proof.
  intros Hrow. induction kvs as [|[k v] rest IH]; [done |].
  cbn [omap list_omap List.filter fst]. unfold assignment at 1. cbn [fst snd].
  destruct (field_of FIELDS k) as [[attr' f']|] eqn:Hk.
  - cbn [List.filter]. unfold sets at 1. cbn [s_attr].
    destruct (String.eqb_spec attr' attr) as [->|Hne].
    + assert (k = key) as -> by eauto using field_of_attr.
      rewrite (field_of_row _ _ Hrow) in Hk. simplify_eq.
      rewrite String.eqb_refl. cbn. by rewrite IH.
    + destruct (String.eqb_spec k key) as [->|?]; [| exact IH].
      rewrite (field_of_row _ _ Hrow) in Hk. by simplify_eq.
  - destruct (String.eqb_spec k key) as [->|?]; [| exact IH].
    rewrite (field_of_row _ _ Hrow) in Hk. done.
Qed.

Lemma fields_last_wins H output setters tag tag' key attr f :
  metaflac_stdout_to_setters output = Ok setters ->
  apply_setters H setters tag = Ok tag' ->
  In (key, (attr, f)) FIELDS ->
  match last_value key (comment_lines output) with
  | Some v => exists x, apply_conv H f v = Ok x /\ tag' !! attr = Some x
  | None => tag' !! attr = tag !! attr
  end.
Proof.
  intros ->%extraction_ok Happ Hrow.
  pose proof (apply_setters_lookup _ _ attr _ _ Happ) as Hl.
  rewrite (filter_assignments _ _ _ _ Hrow) in Hl. unfold last_value.
  change (map (Setter attr f) ?l) with (Setter attr f <$> l) in Hl.
  rewrite fmap_last in Hl.
  by destruct (last _).
Qed.

Lemma other_attributes_kept H output setters tag tag' a :
  metaflac_stdout_to_setters output = Ok setters ->
  apply_setters H setters tag = Ok tag' ->
  (forall key f, ~ In (key, (a, f)) FIELDS) ->
  tag' !! a = tag !! a.
Proof.
  intros ->%extraction_ok Happ Hno.
  pose proof (apply_setters_lookup _ _ a _ _ Happ) as Hl.
  assert (List.filter (sets a) (omap assignment (comment_lines output)) = [])
    as Hnil; [| by rewrite Hnil in Hl].
  clear Happ Hl. induction (comment_lines output) as [|[k v] rest IH]; [done |].
  cbn [omap list_omap]. unfold assignment at 1. cbn [fst snd].
  destruct (field_of FIELDS k) as [[attr' f']|] eqn:Hk; [| exact IH].
  cbn [List.filter]. unfold sets at 1. cbn [s_attr].
  destruct (String.eqb_spec attr' a) as [->|?]; [| exact IH].
  exfalso. apply (Hno k f'). by apply field_of_In.
Qed.

(** *** Where a malformed track number fails *)

Lemma apply_conv_raises H f v e :
  apply_conv H f v = Raise e -> e = ValueError v.
Proof. destruct f; cbn; [done |]. case_match; congruence. Qed.

Lemma apply_setters_raises H s setters :
  In s setters ->
  apply_conv H (s_f s) (s_value s) = Raise (ValueError (s_value s)) ->
  forall tag, exists v, apply_setters H setters tag = Raise (ValueError v).
Proof.
  intros Hin Hbad. induction setters as [|s0 rest IH]; [done |]. intros tag.
  cbn [apply_setters]. unfold call_setter.
  destruct (apply_conv H (s_f s0) (s_value s0)) as [x|e] eqn:Hx.
  - destruct Hin as [->|Hin]; [congruence |]. by apply IH.
  - apply apply_conv_raises in Hx as ->. by eexists.
Qed.

Lemma track_setter_extracted output line value setters :
  In line (Bytes.split newline output) ->
  match_comment line = Some ("TRACKNUMBER", value) ->
  metaflac_stdout_to_setters output = Ok setters ->
  In (Setter "track_num" conv_track value) setters.
Proof.
  intros Hin Hm ->%extraction_ok. apply list_elem_of_In.
  apply list_elem_of_omap. exists ("TRACKNUMBER", value). split; [| done].
  apply list_elem_of_omap. exists line. split; [| done].
  by apply list_elem_of_In.
Qed.

(** *** Relations every run respects *)

Section Steps.
Context (R : relation World) `{!PreOrder R}.

Lemma steps_ret {A} (a : A) : steps R (ret a).
Proof. intros w. reflexivity. Qed.

Lemma steps_raise {A} e : steps R (@raise A e).
Proof. intros w. reflexivity. Qed.

Lemma steps_lift {A} (r : result A) : steps R (lift r).
Proof. intros w. reflexivity. Qed.

Lemma steps_path_exists p : steps R (path_exists p).
Proof. intros w. reflexivity. Qed.

Lemma steps_recurse p : steps R (recurse p).
Proof. intros w. reflexivity. Qed.

Lemma steps_shallow p : steps R (shallow p).
Proof. intros w. unfold shallow. destruct (bool_decide _); reflexivity. Qed.

Lemma steps_bind {A B} (m : M A) (k : A -> M B) :
  steps R m -> (forall a, steps R (k a)) -> steps R (bind m k).
Proof.
  intros Hm Hk w. unfold bind. specialize (Hm w).
  destruct (m w) as [[a|e] w1]; cbn [snd] in *; [| done].
  etransitivity; [exact Hm | apply Hk].
Qed.

Lemma steps_try {A} (m : M A) : steps R m -> steps R (try m).
Proof. intros Hm w. unfold try. specialize (Hm w). by destruct (m w). Qed.

Lemma steps_mapM {A B} (f : A -> M B) l :
  (forall a, steps R (f a)) -> steps R (mapM f l).
Proof.
  intros Hf. induction l as [|a l IH]; cbn [mapM]; [apply steps_ret |].
  apply steps_bind; [done | intros b].
  apply steps_bind; [done | intros bs]. apply steps_ret.
Qed.
End Steps.

#[local] Instance appends_preorder P : PreOrder (appends P).
Proof.
  split.
  - intros w. exists []. by rewrite app_nil_r.
  - intros w1 w2 w3 (l1 & Hl1 & HP1) (l2 & Hl2 & HP2). exists (l1 ++ l2)%list.
    rewrite Hl2, Hl1, app_assoc. split; [done | by apply Forall_app].
Qed.

#[local] Instance keeps_dirs_preorder : PreOrder keeps_dirs.
Proof. split; unfold keeps_dirs; [intros w | intros w1 w2 w3]; set_solver. Qed.

(** The control structure is walked through; [leaf] settles the
    primitives. *)
Ltac walk leaf :=
  repeat first
    [ apply steps_ret | apply steps_raise | apply steps_lift
    | apply steps_path_exists | apply steps_recurse | apply steps_shallow
    | apply steps_try
    | apply steps_mapM; [ .. | intros ?]
    | apply steps_bind; [ .. | intros ?]
    | match goal with |- PreOrder _ => tc_solve end
    | progress case_match
    | leaf ].

(** *** Once the check is over, no tool is probed again *)


Lemma appends_one P w w' ev :
  P ev -> trace w' = (trace w ++ [ev])%list -> appends P w w'.
Proof. intros HP Heq. exists [ev]. split; [done | by constructor]. Qed.

Lemma appends_none P w w' : trace w' = trace w -> appends P w w'.
Proof. intros Heq. exists []. by rewrite app_nil_r. Qed.

Lemma emit_appends P ev : P ev -> steps (appends P) (emit ev).
Proof. intros HP w. by eapply appends_one. Qed.

Lemma leave_appends P l : steps (appends P) (leave l).
Proof. intros w. by apply appends_none. Qed.








(** *** No directory is ever removed *)

Ltac dirs_leaf :=
  first [ by intros ?; unfold keeps_dirs
        | intros ?; unfold keeps_dirs, os_remove, set_tags, os_makedirs;
            cbn; repeat case_match; cbn; set_solver ].

Lemma run_chain_keeps_dirs H cmds : steps keeps_dirs (run_chain H cmds).
Proof.
  induction cmds as [|c rest IH]; cbn [run_chain];
    walk ltac:(first [exact IH | dirs_leaf]).
Qed.

Lemma extractall_keeps_dirs H z d : steps keeps_dirs (extractall H z d).
Proof.
  unfold extractall. case_match; [| apply steps_raise; tc_solve].
  intros w. unfold keeps_dirs. cbn. set_solver.
Qed.

Lemma main_keeps_dirs H root paths descend :
  steps keeps_dirs (main H root paths descend).
Proof.
  unfold main, check_commands, main_loop, scan_path, scan_zip, unzip,
    unzip_serial, generate_dest_dir_name, get_all_matching, gather,
    run_pipelines, run_entered, convert_flac_enter, convert_flac_join,
    gather2, convert_file_only, get_tag_setters, pipe_cmds, call_async,
    log, emit.
  walk ltac:(first [ apply run_chain_keeps_dirs | apply extractall_keeps_dirs
                   | dirs_leaf ]).
Qed.

(** *** The availability check *)

Lemma check_call_run H cmd w :
  exists r w1, try (check_call H [cmd; "--help"]) w = (Ok r, w1) /\
    trace w1 = (trace w ++ [probe_event cmd])%list /\
    (h_run H [cmd; "--help"] = None -> r = Raise (OSError cmd)).
Proof.
  unfold try, check_call, spawn, bind, emit, leave, ret, raise.
  destruct (h_run H [cmd; "--help"]) as [p|]; cbn [trace created].
  - destruct (p_returncode p =? 0); eexists _, _; (split; [reflexivity |]);
      cbn [trace]; done.
  - eexists _, _; (split; [reflexivity |]); cbn [trace]; done.
Qed.

Lemma probe_cons H cmd rest missing w :
  probe H (cmd :: rest) missing w
  = match try (check_call H [cmd; "--help"]) w with
    | (Ok (Ok _), w1) => probe H rest missing w1
    | (Ok (Raise e), w1) =>
        if is_EnvironmentError e then probe H rest (missing ++ [cmd])%list w1
        else (Raise e, w1)
    | (Raise e, w1) => (Raise e, w1)
    end.
Proof.
  cbn [probe]. unfold bind.
  destruct (try _ w) as [[[|e]|] w1]; try done. by destruct (is_EnvironmentError e).
Qed.

Lemma probe_trace H cmds : forall missing w,
  exists k, trace (snd (probe H cmds missing w))
            = (trace w ++ take k (map probe_event cmds))%list /\
    (forall l, fst (probe H cmds missing w) = Ok l -> k = List.length cmds).
Proof.
  induction cmds as [|cmd rest IH]; intros missing w.
  - exists 0%nat. cbn. by rewrite app_nil_r.
  - rewrite probe_cons.
    destruct (check_call_run H cmd w) as (r & w1 & -> & Htr & _).
    destruct r as [[]|e].
    + destruct (IH missing w1) as (k & Hk & Hlen). exists (S k).
      rewrite Hk, Htr, <- app_assoc. split; [done |].
      intros l Hl. cbn. f_equal. eauto.
    + destruct (is_EnvironmentError e).
      * destruct (IH (missing ++ [cmd])%list w1) as (k & Hk & Hlen). exists (S k).
        rewrite Hk, Htr, <- app_assoc. split; [done |].
        intros l Hl. cbn. f_equal. eauto.
      * exists 1%nat. cbn. split; [by rewrite Htr | done].
Qed.



Lemma check_commands_trace H w :
  exists k, trace (snd (check_commands H w)) = (trace w ++ take k PROBES)%list /\
    (forall u, fst (check_commands H w) = Ok u -> k = 3%nat).
Proof.
  unfold check_commands, bind.
  destruct (probe_trace H REQUIRED [] w) as (k & Hk & Hlen).
  destruct (probe H REQUIRED [] w) as [[l|e] w1]; cbn [fst snd] in *.
  - exists k. destruct l; cbn; (split; [done |]); intros; by apply (Hlen _ eq_refl).
  - by exists k.
Qed.




(** *** A second run over archives that are already unpacked *)

Lemma quiet_refl w : quiet w w.
Proof. repeat split. exists []. by rewrite app_nil_r. Qed.

Lemma quiet_trans w1 w2 w3 : quiet w1 w2 -> quiet w2 w3 -> quiet w1 w3.
Proof.
  intros (Hf & Hd & Ht & l1 & Hl1 & HP1) (Hf' & Hd' & Ht' & l2 & Hl2 & HP2).
  split_and!; try congruence. exists (l1 ++ l2)%list.
  rewrite Hl2, Hl1, app_assoc. split; [done | by apply Forall_app].
Qed.

Lemma quiet_log w lvl msg : quiet w (snd (log lvl msg w)).
Proof. repeat split. exists [EvLog lvl msg]. split; [done | by repeat constructor]. Qed.

Lemma exists_in_quiet w w' p : quiet w w' -> exists_in w' p = exists_in w p.
Proof. intros (Hf & Hd & _). unfold exists_in. by rewrite Hf, Hd. Qed.

Lemma generate_dest_dir_name_pure z w :
  quiet w (snd (generate_dest_dir_name z w)) /\
  forall w', fst (generate_dest_dir_name z w') = fst (generate_dest_dir_name z w).
Proof.
  unfold generate_dest_dir_name.
  destruct (splitext z) as [filename ext].
  destruct (negb _); [split; [apply quiet_refl | done] |].
  destruct (Re.rmatch HAPPY_ZIP_PAT _); [split; [apply quiet_refl | done] |].
  destruct (Re.rmatch CHECK_ZIP_PAT _); (split; [apply quiet_log | done]).
Qed.


Lemma unzip_serial_settled H root z w :
  settled root w z ->
  exists w', unzip_serial H z root w = (Ok None, w') /\ quiet w w'.
Proof.
  intros (d & Hd & Hex). unfold unzip_serial, bind at 1.
  destruct (generate_dest_dir_name_pure z w) as [Hq _].
  destruct (generate_dest_dir_name z w) as [r w1]; cbn [fst snd] in *. subst r.
  destruct d as [[|c n]|]; try (by eexists).
  rewrite <- (exists_in_quiet _ _ _ Hq) in Hex.
  unfold bind, path_exists. rewrite Hex. cbn.
  eexists. split; [reflexivity |]. eapply quiet_trans; [exact Hq |].
  apply (quiet_log w1).
Qed.





(** *** Scanning an archive settles it *)

#[local] Instance keeps_disk_preorder : PreOrder keeps_disk.
Proof.
  split; unfold keeps_disk; [intros w | intros w1 w2 w3]; set_solver.
Qed.








(** *** Texts and paths *)

Lemma append_cons c (a b : string) : String c a ++ b = String c (a ++ b).
Proof. reflexivity. Qed.

Lemma append_assoc (a b c : string) : (a ++ b) ++ c = a ++ b ++ c.
Proof.
  induction a as [|x a IH]; [done |]. by rewrite !append_cons, IH.
Qed.


Lemma has_slash_app a b : has_slash (a ++ b) = has_slash a || has_slash b.
Proof.
  induction a as [|c a IH]; [done |]. rewrite append_cons. cbn [has_slash].
  by rewrite IH, orb_assoc.
Qed.





Lemma rev_onto_acc s : forall acc, Bytes.rev_onto s acc = Bytes.rev s ++ acc.
Proof.
  induction s as [|c s IH]; intros acc; [done |].
  unfold Bytes.rev. cbn [Bytes.rev_onto].
  rewrite (IH (String c acc)), (IH (String c "")), append_assoc. done.
Qed.





Lemma first_char_rev_onto s : forall acc,
  first_char (Bytes.rev_onto s acc)
  = match last_char s with Some a => Some a | None => first_char acc end.
Proof.
  induction s as [|c s IH]; intros acc; [done |].
  cbn [Bytes.rev_onto]. rewrite IH. destruct s as [|d s]; [done |].
  change (last_char (String c (String d s))) with (last_char (String d s)).
  destruct (last_char (String d s)) eqn:Hl; [done |].
  exfalso. clear -Hl. revert d Hl. induction s as [|e s IH]; intros d; [done |].
  apply IH.
Qed.

Lemma endswith_slash s :
  Bytes.endswith s "/" = match last_char s with
                         | Some a => Ascii.eqb slash a
                         | None => false
                         end.
Proof.
  unfold Bytes.endswith, Bytes.startswith, Bytes.rev.
  pose proof (first_char_rev_onto s "") as Hf.
  destruct (Bytes.rev_onto s "") as [|a r]; cbn in Hf.
  - by destruct (last_char s).
  - destruct (last_char s) as [b|]; [| done]. injection Hf as ->.
    change (Bytes.rev_onto "/" "") with "/". cbn [Bytes.strip_prefix].
    unfold slash. by destruct (Ascii.eqb "/" b).
Qed.

Lemma last_char_app x y : y <> "" -> last_char (x ++ y) = last_char y.
Proof.
  intros Hy. induction x as [|c x IH]; [done |]. rewrite append_cons.
  cbn [last_char]. destruct (x ++ y) eqn:Hxy; [| done].
  destruct x, y; done.
Qed.

Lemma last_char_slash s a :
  last_char s = Some a -> has_slash s = false -> Ascii.eqb slash a = false.
Proof.
  induction s as [|c s IH]; [done |]. cbn [last_char has_slash].
  rewrite orb_false_iff. intros Hl [Hc Hs]. destruct s as [|d s].
  - simplify_eq. by rewrite Ascii.eqb_sym.
  - by apply IH.
Qed.

Lemma endswith_app_slash x y :
  y <> "" -> has_slash y = false -> Bytes.endswith (x ++ y) "/" = false.
Proof.
  intros Hy Hs. rewrite endswith_slash, last_char_app by done.
  destruct (last_char y) eqn:Hl; [| done]. by eapply last_char_slash.
Qed.

(** *** What the patterns capture *)

Lemma strip_prefix_app l : forall s r,
  Bytes.strip_prefix l s = Some r -> s = l ++ r.
Proof.
  induction l as [|a l IH]; intros s r; cbn [Bytes.strip_prefix].
  - by intros [= ->].
  - destruct s as [|b s]; [done |].
    destruct (Ascii.eqb_spec a b) as [->|]; [| done].
    intros Hr. by rewrite append_cons, (IH _ _ Hr).
Qed.

Lemma star_app {R} (k : string -> option R) c s : forall m x,
  Re.star k c s = Some (m, x) -> exists t, s = m ++ t /\ k t = Some x.
Proof.
  induction s as [|a s IH]; intros m x; cbn [Re.star].
  - destruct (k "") eqn:Hk; [| done]. cbn. intros [= <- <-]. by exists "".
  - assert (option_map (pair "") (k (String a s)) = Some (m, x) ->
            exists t, String a s = m ++ t /\ k t = Some x) as Hstop.
    { destruct (k (String a s)) eqn:Hk; [| done]. cbn. intros [= <- <-].
      by exists (String a s). }
    destruct (c a); [| done].
    destruct (Re.star k c s) as [[m' x']|] eqn:Hs; [| done].
    intros [= <- <-]. destruct (IH _ _ eq_refl) as (t & -> & Ht). by exists t.
Qed.

Lemma plus_app {R} (k : string -> option R) c s m x :
  Re.plus k c s = Some (m, x) ->
  m <> "" /\ exists t, s = m ++ t /\ k t = Some x.
Proof.
  unfold Re.plus. destruct s as [|a s]; [done |]. destruct (c a); [| done].
  destruct (Re.star k c s) as [[m' x']|] eqn:Hs; [| done].
  intros [= <- <-]. split; [done |].
  destruct (star_app _ _ _ _ _ Hs) as (t & -> & Ht). by exists t.
Qed.

(** Both archive patterns have the shape: group, [ - ], group, end. *)
Lemma two_groups c1 c2 s gs :
  Re.rmatch [Re.group1 c1; Re.lit " - "; Re.group1 c2; Re.eos] s = Some gs ->
  exists g1 g2, gs = [g1; g2] /\ s = g1 ++ " - " ++ g2 /\ g1 <> "" /\ g2 <> "".
Proof.
  cbn [Re.rmatch].
  destruct (Re.plus _ c1 s) as [[g1 gs1]|] eqn:H1; [| done]. cbn. intros [= <-].
  apply plus_app in H1 as (Hg1 & t1 & -> & H1).
  destruct (Bytes.strip_prefix " - " t1) as [t2|] eqn:H2; [| done].
  apply strip_prefix_app in H2 as ->.
  destruct (Re.plus _ c2 t2) as [[g2 gs2]|] eqn:H3; [| done].
  cbn in H1. simplify_eq.
  apply plus_app in H3 as (Hg2 & t3 & -> & H3).
  destruct t3 as [|a t3]; [| done]. simplify_eq.
  exists g1, g2. split_and!; try done.
  f_equal. f_equal. clear. induction g2 as [|a g IH]; [done |].
  by rewrite append_cons, IH.
Qed.



Lemma has_char_slash s : has_char slash s = has_slash s.
Proof. induction s as [|a s IH]; [done |]. cbn. by rewrite IH. Qed.

Lemma rsplit1_none c s : Bytes.rsplit1 c s = None -> has_char c s = false.
Proof.
  induction s as [|a s IH]; [done |]. cbn.
  destruct (Bytes.rsplit1 c s) as [[h t]|]; [done |].
  destruct (Ascii.eqb a c); [done |]. auto.
Qed.

Lemma rsplit1_some c s : forall h t,
  Bytes.rsplit1 c s = Some (h, t) -> has_char c t = false.
Proof.
  induction s as [|a s IH]; intros h t; [done |]. cbn.
  destruct (Bytes.rsplit1 c s) as [[h' t']|] eqn:Hs.
  - intros [= <- <-]. eauto.
  - destruct (Ascii.eqb a c); [| done]. intros [= <- <-]. by apply rsplit1_none.
Qed.

Lemma basename_no_slash p : has_slash (basename p) = false.
Proof.
  unfold basename, split_dir. rewrite <- has_char_slash.
  destruct (Bytes.rsplit1 slash p) as [[d name]|] eqn:Hs; cbn.
  - by eapply rsplit1_some.
  - by apply rsplit1_none.
Qed.

(** *** Destinations *)

Lemma startswith_slash s : has_slash s = false -> Bytes.startswith s "/" = false.
Proof.
  destruct s as [|a s]; [done |]. cbn [has_slash]. rewrite orb_false_iff.
  intros [Ha _]. unfold Bytes.startswith. cbn [Bytes.strip_prefix].
  rewrite Ascii.eqb_sym. unfold slash in Ha. by rewrite Ha.
Qed.

Lemma path_join_plain a b :
  a <> "" -> has_slash a = false -> has_slash b = false ->
  path_join a b = a ++ "/" ++ b.
Proof.
  intros Ha Hsa Hsb. unfold path_join. rewrite (startswith_slash _ Hsb).
  destruct (String.eqb_spec a "") as [|_]; [done |]. cbn [orb].
  assert (Bytes.endswith a "/" = false) as ->; [| done].
  by apply (endswith_app_slash "" a).
Qed.






(** *** What the scan hands to the pipelines *)






(** *** What the pipelines may remove *)

#[local] Instance spares_preorder P : PreOrder (spares P).
Proof.
  split.
  - intros w. split; [auto | done].
  - intros w1 w2 w3 [Hf1 Hd1] [Hf2 Hd2]. split; [auto | set_solver].
Qed.








Lemma enter_all flacs : forall w,
  exists gos w', mapM convert_flac_enter flacs w = (Ok gos, w') /\
    quiet w w' /\
    Forall2 (fun f g => g = negb (exists_in w (mp3_path_of f))) flacs gos.
Proof.
  induction flacs as [|f flacs IH]; intros w.
  - exists [], w. split_and!; [done | apply quiet_refl | constructor].
  - assert (exists w1, convert_flac_enter f w
              = (Ok (negb (exists_in w (mp3_path_of f))), w1) /\ quiet w w1)
      as (w1 & Hf & Hq1).
    { unfold convert_flac_enter, bind, path_exists.
      destruct (exists_in w _); eexists; (split; [reflexivity |]).
      - apply (quiet_log w).
      - apply quiet_refl. }
    destruct (IH w1) as (gos & w2 & Hrest & Hq2 & Hall).
    exists (negb (exists_in w (mp3_path_of f)) :: gos), w2. split_and!.
    + cbn [mapM]. unfold bind. by rewrite Hf, Hrest.
    + exact (quiet_trans _ _ _ Hq1 Hq2).
    + constructor; [done |]. eapply Forall2_impl; [exact Hall |].
      intros f' g ->. cbn. by rewrite (exists_in_quiet _ _ _ Hq1).
Qed.






(** * The claims *)

(** C1 (as amended).  When the stage-2 transcode of a file that passed the
    entry guard exits with a non-zero code, the pipeline calls [os.remove]
    on the output path and swallows a failure of that call; unless the
    removal was refused no output file exists afterwards; the source file
    is not deleted; and [convert_flac] returns [None] without raising, so
    the failure stays with this file. *)
Theorem C1_failed_transcode_cleans_up H f w :
  exists_in w (mp3_path_of f) = false ->
  transcode_fails H f ->
  exists w' done,
    convert_flac H f w = (Ok None, w') /\
    trace w' = (trace w ++
      [EvSpawn (metaflac_cmd_args f); EvSpawn (metaflac_cmd_args f);
       EvPipe [flac_args f; lame_args (mp3_path_of f)];
       EvRemove (mp3_path_of f) done])%list /\
    (h_unlink_denied H (mp3_path_of f) = false ->
       exists_in w' (mp3_path_of f) = false) /\
    (f ∈ files w -> f ∈ files w').
Proof.
  intros Hex (pm & setters & pf & pl & Hm & Hs & Hf & Hl & Hrc).
  destruct (transcode_failure H f w pm pf pl setters Hex Hm Hs Hf Hl Hrc)
    as (w' & done & Hrun & Htr & Hgone & Hkept & _).
  by exists w', done.
Qed.

Lemma C1_failed_transcode_cleans_up_witness :
  exists_in demo_world (mp3_path_of "m/a.flac") = false /\
  transcode_fails (demo_host sample_listing 0 1) "m/a.flac" /\
  exists w' done,
    convert_flac (demo_host sample_listing 0 1) "m/a.flac" demo_world
      = (Ok None, w') /\
    trace w' = (trace demo_world ++
      [EvSpawn (metaflac_cmd_args "m/a.flac");
       EvSpawn (metaflac_cmd_args "m/a.flac");
       EvPipe [flac_args "m/a.flac"; lame_args (mp3_path_of "m/a.flac")];
       EvRemove (mp3_path_of "m/a.flac") done])%list /\
    (h_unlink_denied (demo_host sample_listing 0 1) (mp3_path_of "m/a.flac")
       = false -> exists_in w' (mp3_path_of "m/a.flac") = false) /\
    ("m/a.flac" ∈ files demo_world -> "m/a.flac" ∈ files w').
Proof.
  assert (transcode_fails (demo_host sample_listing 0 1) "m/a.flac") as Hfail.
  { eexists _, _, _, _. split_and!; try (vm_compute; reflexivity). done. }
  split; [vm_compute; reflexivity |]. split; [exact Hfail |].
  apply C1_failed_transcode_cleans_up; [vm_compute; reflexivity | exact Hfail].
Defined.

(** C1, the claim as stated fails: the encoder exits with code 1 after it
    has written the output file, the removal is refused, and the output
    file is still there when the pipeline has ended. *)
Lemma C1_output_survives_refused_removal :
  exists_in demo_world "m/a.mp3" = false /\
  p_returncode <$> h_run (stubborn_host sample_listing 0 1) (lame_args "m/a.mp3")
    = Some 1 /\
  fst (convert_flac (stubborn_host sample_listing 0 1) "m/a.flac" demo_world)
    = Ok None /\
  exists_in
    (snd (convert_flac (stubborn_host sample_listing 0 1) "m/a.flac" demo_world))
    "m/a.mp3" = true.
Proof. vm_compute. done. Qed.



(** C3 (as amended).  For a listing with a TRACKNUMBER comment whose value
    is not a valid integer, tag extraction neither parses the integer nor
    fails on it: it returns a deferred setter that holds the text.  The
    parse runs when [set_tags] applies the setters to the tag of the
    output file, and raises ValueError there. *)
Theorem C3_track_number_parsed_when_tags_are_set H output line value :
  In line (Bytes.split newline output) ->
  match_comment line = Some ("TRACKNUMBER", value) ->
  h_int H value = None ->
  (well_encoded output = true ->
     exists setters, metaflac_stdout_to_setters output = Ok setters) /\
  forall setters, metaflac_stdout_to_setters output = Ok setters ->
    In (Setter "track_num" conv_track value) setters /\
    (forall tag, exists v, apply_setters H setters tag = Raise (ValueError v)) /\
    (forall path w, path ∈ files w ->
       exists v, set_tags H path setters w = (Raise (ValueError v), w)).
Proof.
  intros Hin Hm Hint. split.
  - intros Hw. rewrite metaflac_stdout_to_setters_spec, Hw. by eexists.
  - intros setters Hs.
    pose proof (track_setter_extracted _ _ _ _ Hin Hm Hs) as Hset.
    assert (forall tag, exists v,
               apply_setters H setters tag = Raise (ValueError v)) as Hraise.
    { apply (apply_setters_raises H _ _ Hset). cbn. by rewrite Hint. }
    split_and!; [done | done |].
    intros path w Hp. unfold set_tags. rewrite bool_decide_eq_true_2 by done.
    destruct (Hraise (default ∅ (tags w !! path))) as (v & ->). by exists v.
Qed.

Lemma C3_track_number_parsed_when_tags_are_set_witness :
  In seven_listing (Bytes.split newline seven_listing) /\
  match_comment seven_listing = Some ("TRACKNUMBER", "seven") /\
  h_int (demo_host seven_listing 0 0) "seven" = None /\
  (well_encoded seven_listing = true ->
     exists setters, metaflac_stdout_to_setters seven_listing = Ok setters) /\
  forall setters, metaflac_stdout_to_setters seven_listing = Ok setters ->
    In (Setter "track_num" conv_track "seven") setters /\
    (forall tag, exists v,
       apply_setters (demo_host seven_listing 0 0) setters tag
       = Raise (ValueError v)) /\
    (forall path w, path ∈ files w ->
       exists v, set_tags (demo_host seven_listing 0 0) path setters w
                 = (Raise (ValueError v), w)).
Proof.
  assert (In seven_listing (Bytes.split newline seven_listing)) as Hin
    by (vm_compute; auto).
  split; [exact Hin |]. split; [vm_compute; reflexivity |].
  split; [vm_compute; reflexivity |].
  apply C3_track_number_parsed_when_tags_are_set with (line := seven_listing);
    [exact Hin | vm_compute; reflexivity | vm_compute; reflexivity].
Defined.

(** C3, the claim as stated fails: the value [seven] is no integer, yet
    the extraction step returns normally, with one deferred setter. *)
Lemma C3_extraction_accepts_seven :
  h_int (demo_host seven_listing 0 0) "seven" = None /\
  metaflac_stdout_to_setters seven_listing
    = Ok [Setter "track_num" conv_track "seven"] /\
  fst (get_tag_setters (demo_host seven_listing 0 0) "m/a.flac" demo_world)
    = Ok [Setter "track_num" conv_track "seven"].
Proof. vm_compute. done. Qed.





(** C6 (as amended).  The extractor returns exactly one assignment for
    every comment line whose key is recognised, for every occurrence and in
    listing order, and none for a line with another key; it raises only
    when the value of a recognised line is not UTF-8.  The listing with
    TITLE=Foo, COMMENT=ignored and ARTIST=Bar yields exactly the two
    assignments of title and artist. *)
Theorem C6_one_assignment_per_recognised_line :
  (forall output,
     metaflac_stdout_to_setters output
     = if well_encoded output
       then Ok (omap assignment (comment_lines output))
       else Raise UnicodeDecodeError) /\
  metaflac_stdout_to_setters sample_listing
  = Ok [Setter "title" conv_id "Foo"; Setter "artist" conv_id "Bar"].
Proof.
  split; [apply metaflac_stdout_to_setters_spec | vm_compute; reflexivity].
Qed.

(** C6, the claim as stated fails: a listing that carries TITLE twice
    yields two assignments of the title, not only the one of the first
    occurrence. *)
Lemma C6_repeated_key_yields_two :
  metaflac_stdout_to_setters twice_listing
  = Ok [Setter "title" conv_id "First"; Setter "track_num" conv_track "7";
        Setter "title" conv_id "Second"].
Proof. vm_compute. reflexivity. Qed.

(** C7.  After the extracted setters have all been applied to a tag, each
    of the six fields holds the converted value of the last comment with
    its key, a field whose key does not occur is as it was, and no other
    attribute is touched. *)
Theorem C7_last_occurrence_wins H output setters tag tag' :
  metaflac_stdout_to_setters output = Ok setters ->
  apply_setters H setters tag = Ok tag' ->
  (forall key attr f, In (key, (attr, f)) FIELDS ->
     match last_value key (comment_lines output) with
     | Some v => exists x, apply_conv H f v = Ok x /\ tag' !! attr = Some x
     | None => tag' !! attr = tag !! attr
     end) /\
  (forall a, (forall key f, ~ In (key, (a, f)) FIELDS) -> tag' !! a = tag !! a).
Proof.
  intros Hs Ha. split.
  - intros key attr f Hin.
    exact (fields_last_wins H output setters tag tag' key attr f Hs Ha Hin).
  - intros a Hno.
    exact (other_attributes_kept H output setters tag tag' a Hs Ha Hno).
Qed.

Lemma C7_last_occurrence_wins_witness :
  let H := demo_host twice_listing 0 0 in
  let setters := [Setter "title" conv_id "First";
                  Setter "track_num" conv_track "7";
                  Setter "title" conv_id "Second"] in
  let tag' : Tag := <["title" := PStr "Second"]>
                      (<["track_num" := PTrack 7 None]> ∅) in
  metaflac_stdout_to_setters twice_listing = Ok setters /\
  apply_setters H setters ∅ = Ok tag' /\
  match last_value "TITLE" (comment_lines twice_listing) with
  | Some v => exists x, apply_conv H conv_id v = Ok x /\ tag' !! "title" = Some x
  | None => tag' !! "title" = (∅ : Tag) !! "title"
  end.
Proof.
  intros H setters tag'.
  assert (metaflac_stdout_to_setters twice_listing = Ok setters) as Hs
    by (vm_compute; reflexivity).
  assert (apply_setters H setters ∅ = Ok tag') as Ha
    by (vm_compute; reflexivity).
  split; [exact Hs |]. split; [exact Ha |].
  apply (proj1 (C7_last_occurrence_wins H twice_listing setters ∅ tag' Hs Ha)
           "TITLE" "title" conv_id).
  vm_compute. auto.
Defined.





(** C10.  In a pipeline that commits, the listing subprocess is started
    twice for the file: once by the call of [get_tag_setters] that
    [convert_flac] awaits itself, and once inside [convert_file_only],
    before the process chain is run.  [convert_file_only] returns no
    value; the setters applied at commit are those of the first call. *)
Theorem C10_extraction_runs_twice H f w o w' :
  convert_flac H f w = (Ok (Some o), w') ->
  exists setters w1 w2 tag,
    get_tag_setters H f w = (Ok setters, w1) /\
    trace w1 = (trace w ++ [EvSpawn (metaflac_cmd_args f)])%list /\
    convert_file_only H f (mp3_path_of f) w1 = (Ok tt, w2) /\
    trace w2 = (trace w1 ++ [EvSpawn (metaflac_cmd_args f);
                             EvPipe [flac_args f; lame_args (mp3_path_of f)]])%list /\
    apply_setters H setters ∅ = Ok tag /\
    trace w' = (trace w ++ commit_trace f tag)%list.
Proof.
  intros Hrun.
  destruct (convert_flac_commit _ _ _ _ _ Hrun)
    as (pm & pf & pl & setters & tag & Ho & Hex & Hm & Hs & Hf & Hl & Hrc
        & Ha & Hd & Htr & _).
  eexists setters, _, _, tag. split_and!.
  - unfold get_tag_setters, spawn, bind, emit, leave, ret, lift.
    rewrite Hm, Hs. reflexivity.
  - done.
  - unfold convert_file_only, bind at 1.
    unfold get_tag_setters, spawn, bind at 1 2 3, emit, leave, ret, lift.
    rewrite Hm. cbn [trace created files dirs tags]. rewrite Hs.
    unfold bind at 1. rewrite (pipe_cmds_spec _ _ _ _ _ _ Hf Hl), Hrc.
    reflexivity.
  - cbn [trace created files dirs tags]. by rewrite <- !app_assoc.
  - done.
  - done.
Qed.

Lemma C10_extraction_runs_twice_witness :
  let H := demo_host sample_listing 0 0 in
  fst (convert_flac H "m/a.flac" demo_world) = Ok (Some "m/a.mp3") /\
  exists setters w1 w2 tag,
    get_tag_setters H "m/a.flac" demo_world = (Ok setters, w1) /\
    trace w1 = (trace demo_world ++ [EvSpawn (metaflac_cmd_args "m/a.flac")])%list /\
    convert_file_only H "m/a.flac" (mp3_path_of "m/a.flac") w1 = (Ok tt, w2) /\
    trace w2 = (trace w1 ++ [EvSpawn (metaflac_cmd_args "m/a.flac");
                             EvPipe [flac_args "m/a.flac";
                                     lame_args (mp3_path_of "m/a.flac")]])%list /\
    apply_setters H setters ∅ = Ok tag /\
    trace (snd (convert_flac H "m/a.flac" demo_world))
    = (trace demo_world ++ commit_trace "m/a.flac" tag)%list.
Proof.
  intros H. split; [vm_compute; reflexivity |].
  apply (C10_extraction_runs_twice H "m/a.flac" demo_world "m/a.mp3").
  vm_compute; reflexivity.
Defined.

(** * Further properties of the code *)

(** ** Greedy repetition *)

Lemma star_class {R} (k : string -> option R) c s : forall m x,
  Re.star k c s = Some (m, x) -> all_of c m = true.
Proof.
  induction s as [|a s IH]; intros m x; cbn [Re.star].
  - destruct (k ""); [| done]. by intros [= <- <-].
  - destruct (c a) eqn:Hc.
    + destruct (Re.star k c s) as [[m' x']|] eqn:Hs.
      * intros [= <- <-]. cbn. rewrite Hc. by eapply IH.
      * destruct (k (String a s)); [| done]. by intros [= <- <-].
    + destruct (k (String a s)); [| done]. by intros [= <- <-].
Qed.

Lemma plus_class {R} (k : string -> option R) c s m x :
  Re.plus k c s = Some (m, x) -> all_of c m = true.
Proof.
  unfold Re.plus. destruct s as [|a s]; [done |]. destruct (c a) eqn:Hc; [| done].
  destruct (Re.star k c s) as [[m' x']|] eqn:Hs; [| done].
  intros [= <- <-]. cbn. rewrite Hc. by eapply star_class.
Qed.

(** A run that ends where the class ends is the one the repetition takes. *)
Lemma star_stops {R} (k : string -> option R) c m : forall t x,
  all_of c m = true -> stops c t = true -> k t = Some x ->
  Re.star k c (m ++ t) = Some (m, x).
Proof.
  induction m as [|a m IH]; intros t x Hm Ht Hk.
  - change ("" ++ t) with t. destruct t as [|b t]; cbn [Re.star].
    + by rewrite Hk.
    + cbn in Ht. apply negb_true_iff in Ht. by rewrite Ht, Hk.
  - cbn in Hm. apply andb_true_iff in Hm as [Ha Hm].
    rewrite append_cons. cbn [Re.star]. by rewrite Ha, (IH t x).
Qed.

Lemma plus_stops {R} (k : string -> option R) c m t x :
  m <> "" -> all_of c m = true -> stops c t = true -> k t = Some x ->
  Re.plus k c (m ++ t) = Some (m, x).
Proof.
  destruct m as [|a m]; [done |]. intros _ Hm Ht Hk.
  cbn in Hm. apply andb_true_iff in Hm as [Ha Hm].
  rewrite append_cons. unfold Re.plus. by rewrite Ha, (star_stops k c m t x).
Qed.

(** The repetition finds a match whenever some run of the class is
    followed by a match of the rest, and the run it takes is the longest
    such. *)
Lemma star_longest {R} (k : string -> option R) c m : forall t,
  all_of c m = true -> is_Some (k t) ->
  exists m' x', Re.star k c (m ++ t) = Some (m', x')
    /\ (String.length m <= String.length m')%nat.
Proof.
  induction m as [|a m IH]; intros t Hm [x Hk].
  - change ("" ++ t) with t.
    destruct t as [|b t]; cbn [Re.star].
    + rewrite Hk. cbn. eauto.
    + destruct (c b).
      * destruct (Re.star k c t) as [[m' x']|].
        -- exists (String b m'), x'. split; [done | cbn; lia].
        -- rewrite Hk. cbn. eauto.
      * rewrite Hk. cbn. eauto.
  - cbn in Hm. apply andb_true_iff in Hm as [Ha Hm].
    rewrite append_cons. cbn [Re.star]. rewrite Ha.
    destruct (IH t Hm (ex_intro _ x Hk)) as (m' & x' & -> & Hle).
    exists (String a m'), x'. split; [done | cbn; lia].
Qed.

Lemma plus_longest {R} (k : string -> option R) c m t :
  m <> "" -> all_of c m = true -> is_Some (k t) ->
  exists m' x', Re.plus k c (m ++ t) = Some (m', x')
    /\ (String.length m <= String.length m')%nat.
Proof.
  destruct m as [|a m]; [done |]. intros _ Hm Hk.
  cbn in Hm. apply andb_true_iff in Hm as [Ha Hm].
  rewrite append_cons. unfold Re.plus. rewrite Ha.
  destruct (star_longest k c m t Hm Hk) as (m' & x' & -> & Hle).
  exists (String a m'), x'. split; [done | cbn; lia].
Qed.

Lemma star_total_stops {R} (k : string -> option R) c s :
  (forall t, is_Some (k t)) ->
  forall m x, Re.star k c s = Some (m, x) ->
  exists t, s = m ++ t /\ stops c t = true /\ k t = Some x.
Proof.
  intros Hk. induction s as [|a s IH]; intros m x; cbn [Re.star].
  - destruct (k "") eqn:E; [| done]. cbn. intros [= <- <-]. by exists "".
  - destruct (c a) eqn:Hc.
    + destruct (Re.star k c s) as [[m' x']|] eqn:Hs.
      * intros [= <- <-]. destruct (IH _ _ eq_refl) as (t & -> & Ht & Hx).
        by exists t.
      * exfalso. clear IH. revert Hs. clear -Hk.
        induction s as [|b s IH]; cbn [Re.star].
        -- destruct (Hk "") as [y ->]. done.
        -- destruct (c b).
           ++ destruct (Re.star k c s); [by destruct p |].
              destruct (Hk (String b s)) as [y ->]. done.
           ++ destruct (Hk (String b s)) as [y ->]. done.
    + destruct (k (String a s)) eqn:E; [| done]. cbn. intros [= <- <-].
      exists (String a s). cbn. by rewrite Hc.
Qed.

Lemma strip_prefix_self l r : Bytes.strip_prefix l (l ++ r) = Some r.
Proof.
  induction l as [|a l IH]; [by destruct r |].
  rewrite append_cons. cbn [Bytes.strip_prefix]. by rewrite Ascii.eqb_refl.
Qed.

(** X1 (the comment pattern).  A line gives a key and a value exactly
    when it is white space, [comment[], digits, []: ], a key over
    letters, digits, space and underscore, an equals sign and the value:
    the key ends at the first equals sign, and the value is the rest of
    the line, later equals signs included. *)
Theorem X1_value_follows_first_equals line key value :
  match_comment line = Some (key, value) <->
  exists ws ds rest,
    line = ws ++ "comment[" ++ ds ++ "]: " ++ key ++ "=" ++ value ++ rest
    /\ ws <> "" /\ all_of Re.space ws = true
    /\ ds <> "" /\ all_of Re.digit ds = true
    /\ key <> "" /\ all_of key_char key = true
    /\ all_of Re.dot value = true /\ stops Re.dot rest = true.
Proof.
  unfold match_comment, COMMENT_PAT. split.
  - cbn [Re.rmatch].
    destruct (Re.plus _ Re.space line) as [[ws r1]|] eqn:H1; [| done].
    pose proof (plus_class _ _ _ _ _ H1) as Hws.
    apply plus_app in H1 as (Hws0 & t1 & -> & H1).
    destruct (Bytes.strip_prefix "comment[" t1) as [t2|] eqn:H2; [| done].
    apply strip_prefix_app in H2 as ->.
    destruct (Re.plus _ Re.digit t2) as [[ds r2]|] eqn:H3; [| done].
    pose proof (plus_class _ _ _ _ _ H3) as Hds.
    apply plus_app in H3 as (Hds0 & t3 & -> & H3).
    destruct (Bytes.strip_prefix "]: " t3) as [t4|] eqn:H4; [| done].
    apply strip_prefix_app in H4 as ->.
    destruct (Re.plus _ key_char t4) as [[k r3]|] eqn:H5; [| done].
    pose proof (plus_class _ _ _ _ _ H5) as Hk.
    apply plus_app in H5 as (Hk0 & t5 & -> & H5).
    destruct (Bytes.strip_prefix "=" t5) as [t6|] eqn:H6; [| done].
    apply strip_prefix_app in H6 as ->.
    destruct (Re.star _ Re.dot t6) as [[v r4]|] eqn:H7; [| done].
    pose proof (star_class _ _ _ _ _ H7) as Hv.
    apply star_total_stops in H7 as (t7 & -> & Hstop & H7); [| by eexists].
    cbn in H1, H3, H5, H7. simplify_eq. cbn.
    intros [= <- <-]. by exists ws, ds, t7.
  - intros (ws & ds & rest & -> & Hws0 & Hws & Hds0 & Hds & Hk0 & Hk & Hv & Hr).
    cbn [Re.rmatch].
    rewrite (plus_stops _ Re.space ws _ [key; value]); [done | done | done | done |].
    rewrite (strip_prefix_self "comment[").
    rewrite (plus_stops _ Re.digit ds _ [key; value]); [done | done | done | done |].
    rewrite (strip_prefix_self "]: ").
    cbn [Re.rmatch].
    rewrite (plus_stops _ key_char key _ [value]); [done | done | done | done |].
    rewrite (strip_prefix_self "=").
    cbn [Re.rmatch].
    by rewrite (star_stops _ Re.dot value rest []).
Qed.

(** ** Lines of a listing *)

Lemma split_nonempty sep s : Bytes.split sep s <> [].
Proof.
  destruct s as [|a s]; cbn; [done |].
  destruct (Ascii.eqb a sep); [done |]. by destruct (Bytes.split sep s).
Qed.

Lemma split_app sep a b :
  Bytes.split sep (a ++ String sep b)
  = (Bytes.split sep a ++ Bytes.split sep b)%list.
Proof.
  induction a as [|c a IH].
  - change ("" ++ String sep b) with (String sep b). cbn.
    by rewrite Ascii.eqb_refl.
  - rewrite append_cons. cbn [Bytes.split]. rewrite IH.
    destruct (Ascii.eqb c sep); [done |].
    pose proof (split_nonempty sep a).
    by destruct (Bytes.split sep a).
Qed.

Lemma setters_of_lines_app l1 l2 :
  setters_of_lines (l1 ++ l2)
  = match setters_of_lines l1 with
    | Ok x => match setters_of_lines l2 with
              | Ok y => Ok (x ++ y)%list
              | Raise e => Raise e
              end
    | Raise e => Raise e
    end.
Proof.
  induction l1 as [|line l1 IH]; cbn [app setters_of_lines].
  - by destruct (setters_of_lines l2).
  - destruct (match_comment line) as [[key value]|]; [| done].
    destruct (TAG_MAP !! key); [| done].
    destruct (decode_utf8 value); [| done].
    rewrite IH. destruct (setters_of_lines l1); [| done].
    by destruct (setters_of_lines l2).
Qed.

Lemma forallb_false {A} (f : A -> bool) l :
  forallb f l = false <-> exists x, In x l /\ f x = false.
Proof.
  induction l as [|a l IH]; cbn.
  - split; [done | by intros (? & [] & _)].
  - rewrite andb_false_iff, IH. split.
    + intros [Ha | (x & Hx & Hf)]; [by exists a; auto | exists x; auto].
    + intros (x & [<- | Hx] & Hf); [by left | right; by exists x].
Qed.

Lemma assignment_TAG_MAP kv :
  is_Some (assignment kv) <-> is_Some (TAG_MAP !! fst kv).
Proof.
  unfold assignment. rewrite TAG_MAP_lookup.
  destruct (field_of FIELDS (fst kv)) as [[attr f]|]; split; intros [? ?]; done.
Qed.

(** X2 (lines are read one by one).  The setters of two listings joined
    by a line break are the setters of the first followed by those of
    the second; a line never changes what another line gives. *)
Theorem X2_listing_reads_line_by_line a b :
  metaflac_stdout_to_setters (a ++ nl ++ b)
  = match metaflac_stdout_to_setters a with
    | Ok x => match metaflac_stdout_to_setters b with
              | Ok y => Ok (x ++ y)%list
              | Raise e => Raise e
              end
    | Raise e => Raise e
    end.
Proof.
  unfold metaflac_stdout_to_setters, nl.
  rewrite append_cons. change ("" ++ b) with b.
  by rewrite split_app, setters_of_lines_app.
Qed.

(** X3 (decoding errors).  Reading a listing fails only with
    [UnicodeDecodeError], and exactly when a comment with one of the six
    recognised keys carries a value that is not UTF-8; the value of any
    other comment is never decoded. *)
Theorem X3_only_recognised_values_are_decoded output e :
  metaflac_stdout_to_setters output = Raise e <->
  e = UnicodeDecodeError /\
  exists key value, In (key, value) (comment_lines output)
    /\ is_Some (TAG_MAP !! key) /\ utf8_scan 0 128 191 value = false.
Proof.
  rewrite metaflac_stdout_to_setters_spec. unfold well_encoded.
  destruct (forallb _ (comment_lines output)) eqn:Hall.
  - split; [done |]. intros (_ & key & value & Hin & Hkey & Hbad).
    rewrite forallb_forall in Hall. specialize (Hall _ Hin).
    apply (assignment_TAG_MAP (key, value)) in Hkey as [s Hs].
    rewrite Hs in Hall. cbn in Hall. congruence.
  - apply forallb_false in Hall as ([key value] & Hin & Hbad).
    split; [| by intros [-> _]]. intros [= <-]. split; [done |].
    exists key, value. split; [done |].
    destruct (assignment (key, value)) eqn:Hs; [| done].
    split; [| done]. apply (assignment_TAG_MAP (key, value)). by rewrite Hs.
Qed.

(** ** Writing tags *)

Lemma apply_setters_app H l1 l2 tag :
  apply_setters H (l1 ++ l2) tag
  = match apply_setters H l1 tag with
    | Ok tag' => apply_setters H l2 tag'
    | Raise e => Raise e
    end.
Proof.
  revert tag. induction l1 as [|s l1 IH]; intros tag; [done |].
  cbn [app apply_setters]. destruct (call_setter H s tag); [apply IH | done].
Qed.

Lemma apply_setters_converts H l : forall tag,
  Forall (fun s => raised (apply_conv H (s_f s) (s_value s)) = false) l <->
  exists tag', apply_setters H l tag = Ok tag'.
Proof.
  induction l as [|s l IH]; intros tag; cbn [apply_setters].
  - split; [by eexists | done].
  - unfold call_setter. rewrite Forall_cons.
    destruct (apply_conv H (s_f s) (s_value s)) as [x|e]; cbn.
    + rewrite (IH (<[s_attr s:=x]> tag)). tauto.
    + split; [by intros [? _] | by intros [? ?]].
Qed.

Lemma apply_setters_again H l tag tag' :
  apply_setters H l tag = Ok tag' -> apply_setters H l tag' = Ok tag'.
Proof.
  intros H1.
  assert (exists t, apply_setters H l tag' = Ok t) as [t H2].
  { apply apply_setters_converts. eapply apply_setters_converts. eauto. }
  rewrite H2. f_equal. apply map_eq. intros a.
  pose proof (apply_setters_lookup _ _ a _ _ H1) as L1.
  pose proof (apply_setters_lookup _ _ a _ _ H2) as L2.
  destruct (last (List.filter (sets a) l)) as [s|]; [| done].
  destruct L1 as (x & Hx & ->), L2 as (y & Hy & ->). congruence.
Qed.

(** X4 (a setter that fails).  When the conversion of one setter fails
    and those before it succeed, [set_tags] raises the [ValueError] of
    that setter and writes nothing: the fields assigned before the
    failure are not saved either. *)
Theorem X4_failed_setter_saves_nothing H path l1 s l2 w :
  path ∈ files w ->
  Forall (fun s => raised (apply_conv H (s_f s) (s_value s)) = false) l1 ->
  raised (apply_conv H (s_f s) (s_value s)) = true ->
  set_tags H path (l1 ++ s :: l2) w = (Raise (ValueError (s_value s)), w).
Proof.
  intros Hin Hok Hbad. unfold set_tags. rewrite bool_decide_eq_true_2 by done.
  rewrite apply_setters_app.
  apply (apply_setters_converts H l1 (default ∅ (tags w !! path))) in Hok
    as [tag' ->].
  cbn [apply_setters]. unfold call_setter.
  destruct (apply_conv H (s_f s) (s_value s)) as [x|e] eqn:Hx; [done |].
  by apply apply_conv_raises in Hx as ->.
Qed.

Lemma X4_failed_setter_saves_nothing_witness :
  set_tags (demo_host "" 0 0) "m/a.flac"
    ([Setter "title" conv_id "Foo"] ++ Setter "track_num" conv_track "seven"
       :: [Setter "artist" conv_id "Bar"]) demo_world
  = (Raise (ValueError "seven"), demo_world).
Proof.
  apply (X4_failed_setter_saves_nothing (demo_host "" 0 0) "m/a.flac"
           [Setter "title" conv_id "Foo"]
           (Setter "track_num" conv_track "seven")
           [Setter "artist" conv_id "Bar"] demo_world).
  - vm_compute. reflexivity.
  - by repeat constructor.
  - reflexivity.
Defined.

(** X5 (writing the same tags again).  After [set_tags] has saved a tag,
    a second call with the same setters saves the very same tag: files,
    directories and stored tags stay as they are. *)
Theorem X5_set_tags_twice H path setters w w1 :
  set_tags H path setters w = (Ok tt, w1) ->
  exists tag, tags w1 !! path = Some tag /\
    set_tags H path setters w1
    = (Ok tt, mkWorld (files w1) (dirs w1) (tags w1)
                      (trace w1 ++ [EvSave path tag])).
Proof.
  unfold set_tags. intros Hrun.
  destruct (bool_decide (path ∈ files w)) eqn:Hin; [| done].
  destruct (apply_setters H setters (default ∅ (tags w !! path)))
    as [tag|] eqn:Happ; [| done].
  destruct (h_save_denied H path) eqn:Hd; [done |].
  injection Hrun as <-. cbn [files dirs tags trace].
  exists tag. rewrite lookup_insert_eq. split; [done |].
  rewrite Hin. cbn [default id].
  rewrite (apply_setters_again _ _ _ _ Happ).
  by rewrite insert_insert_eq.
Qed.

Lemma X5_set_tags_twice_witness :
  exists tag,
    tags (snd (set_tags (demo_host "" 0 0) "m/a.flac"
                 [Setter "title" conv_id "Foo"] demo_world)) !! "m/a.flac"
    = Some tag.
Proof.
  destruct (X5_set_tags_twice (demo_host "" 0 0) "m/a.flac"
              [Setter "title" conv_id "Foo"] demo_world
              (snd (set_tags (demo_host "" 0 0) "m/a.flac"
                      [Setter "title" conv_id "Foo"] demo_world)))
    as (tag & Htag & _).
  - vm_compute. reflexivity.
  - by exists tag.
Defined.

(** ** Discovery *)

Lemma In_elements (X : gset string) f : In f (elements X) <-> f ∈ X.
Proof. by rewrite <- list_elem_of_In, elem_of_elements. Qed.

(** X6 (what discovery returns).  For a directory whose own name does not
    carry the extension, [get_all_matching] changes nothing and returns,
    each once, exactly the regular files below the directory whose
    lower-cased path ends with the lower-cased extension; without
    [descend] only those directly inside it. *)
Theorem X6_discovery_is_exact path ext descend w :
  Bytes.endswith (Bytes.lower path) (Bytes.lower ext) = false ->
  path ∈ dirs w ->
  exists found,
    get_all_matching path ext descend w = (Ok found, w) /\ NoDup found /\
    forall f, In f found <->
      f ∈ files w /\
      (exists name, below path f = Some name
         /\ (descend = false -> has_slash name = false)) /\
      Bytes.endswith (Bytes.lower f) (Bytes.lower ext) = true.
Proof.
  intros Hext Hdir. unfold get_all_matching. rewrite Hext.
  destruct descend; unfold bind, recurse, shallow, ret;
    rewrite bool_decide_eq_true_2 by done.
  - eexists. split; [done |]. split.
    { apply NoDup_ListNoDup, List.NoDup_filter, List.NoDup_filter, NoDup_ListNoDup, NoDup_elements. }
    intros f. rewrite !filter_In, In_elements, bool_decide_eq_true.
    split.
    + intros [[Hf [name Hn]] He]. split_and!; [done | | done]. by exists name.
    + intros (Hf & (name & Hn & _) & He). split_and!; [done | | done]. by exists name.
  - eexists. split; [done |]. split.
    { apply NoDup_ListNoDup, List.NoDup_filter, List.NoDup_filter, NoDup_ListNoDup, NoDup_elements. }
    intros f. rewrite !filter_In, In_elements. split.
    + intros [[Hf Hb] He]. split_and!; try done.
      destruct (below path f) as [name|]; [| done].
      exists name. split; [done |]. intros _. by apply negb_true_iff in Hb.
    + intros (Hf & (name & Hn & Hs) & He). split_and!; try done.
      rewrite Hn. by rewrite Hs.
Qed.

Lemma X6_discovery_is_exact_witness :
  exists found,
    get_all_matching "m" ".FLAC" true demo_world = (Ok found, demo_world)
    /\ In "m/a.flac" found.
Proof.
  destruct (X6_discovery_is_exact "m" ".FLAC" true demo_world)
    as (found & Hrun & _ & Hin).
  - vm_compute. reflexivity.
  - vm_compute. reflexivity.
  - exists found. split; [exact Hrun |]. apply Hin. split_and!.
    + vm_compute. reflexivity.
    + exists "a.flac". split; [vm_compute; reflexivity | done].
    + vm_compute. reflexivity.
Defined.

Lemma filter_nil {A} (f : A -> bool) l :
  (forall x, In x l -> f x = false) -> List.filter f l = [].
Proof.
  induction l as [|a l IH]; intros Hl; [done |]. cbn.
  rewrite (Hl a) by (by left). apply IH. intros x Hx. apply Hl. by right.
Qed.

Lemma scan_path_no_archive H root p w :
  Bytes.endswith (Bytes.lower p) ".zip" = false ->
  (forall f, f ∈ files w -> is_Some (below p f) ->
             Bytes.endswith (Bytes.lower f) ".zip" = false) ->
  scan_path H root true p w = (Ok [], w).
Proof.
  intros Hp Hnone. unfold scan_path, get_all_matching.
  change (Bytes.lower ".zip") with ".zip". rewrite Hp.
  unfold bind, recurse, ret. rewrite filter_nil; [done |].
  intros f Hf. destruct (bool_decide (p ∈ dirs w)); [| done].
  apply filter_In in Hf as [Hf Hb]. apply bool_decide_eq_true in Hb.
  apply Hnone; [by apply In_elements | done].
Qed.

Lemma mapM_nothing {A B} (f : A -> M (list B)) l w :
  Forall (fun a => f a w = (Ok [], w)) l ->
  exists found, mapM f l w = (Ok found, w) /\ List.concat found = [].
Proof.
  induction 1 as [|a l Ha _ (found & IH & Hc)]; cbn [mapM].
  - by exists [].
  - exists ([] :: found). unfold bind at 1. rewrite Ha.
    unfold bind at 1. rewrite IH. by cbn.
Qed.

(** X7 (nothing to unpack).  When no path given is an archive and no
    archive lies below any of them, [main_loop] with [descend] returns
    normally and has done nothing at all: no file is converted, removed
    or logged about, whatever else the paths hold, and whether or not
    they exist. *)
Theorem X7_without_archives_nothing_happens H root paths w :
  Forall (fun p =>
    Bytes.endswith (Bytes.lower p) ".zip" = false /\
    forall f, f ∈ files w -> is_Some (below p f) ->
              Bytes.endswith (Bytes.lower f) ".zip" = false) paths ->
  main_loop H root paths true w = (Ok tt, w).
Proof.
  intros Hpaths.
  destruct (mapM_nothing (scan_path H root true) paths w) as (found & Hm & Hc).
  { eapply Forall_impl; [exact Hpaths |]. intros p [Hp Hnone].
    by apply scan_path_no_archive. }
  unfold main_loop. unfold bind at 1. rewrite Hm, Hc. reflexivity.
Qed.

Lemma X7_without_archives_nothing_happens_witness :
  main_loop (demo_host sample_listing 0 0) "out" ["m"; "nowhere"] true demo_world
  = (Ok tt, demo_world).
Proof.
  apply X7_without_archives_nothing_happens.
  assert (forall p f, f ∈ files demo_world -> is_Some (below p f) ->
            Bytes.endswith (Bytes.lower f) ".zip" = false) as Hnone.
  { intros p f Hf _. unfold demo_world in Hf. cbn [files] in Hf.
    apply elem_of_singleton in Hf. by subst f. }
  apply Forall_cons. split; [split; [reflexivity | apply Hnone] |].
  apply Forall_cons. split; [split; [reflexivity | apply Hnone] |].
  apply Forall_nil_2.
Defined.

(** X8 (a path that is no directory, without [descend]).  With
    [descend] off, a first path that is neither an archive nor a
    directory makes [main_loop] raise [OSError] for it before anything
    else is done. *)
Theorem X8_no_descend_needs_a_directory H root p rest w :
  Bytes.endswith (Bytes.lower p) ".zip" = false ->
  p ∉ dirs w ->
  main_loop H root (p :: rest) false w = (Raise (OSError p), w).
Proof.
  intros Hp Hdir. unfold main_loop. cbn [mapM].
  unfold bind at 1. unfold bind at 1. unfold scan_path at 1.
  unfold bind at 1. unfold get_all_matching.
  change (Bytes.lower ".zip") with ".zip". rewrite Hp.
  unfold bind at 1. unfold shallow. by rewrite bool_decide_eq_false_2.
Qed.

Lemma X8_no_descend_needs_a_directory_witness :
  main_loop (demo_host sample_listing 0 0) "out" ["m/a.flac"; "m"] false
    demo_world
  = (Raise (OSError "m/a.flac"), demo_world).
Proof.
  apply X8_no_descend_needs_a_directory.
  - vm_compute. reflexivity.
  - vm_compute. intros [=].
Defined.

(** ** Extensions *)

Lemma lower_char_eqb (c d : ascii) :
  Bytes.between 65 90 d = false ->
  Ascii.eqb (Bytes.lower_char c) d = true -> Bytes.between 65 90 c = true \/ c = d.
Proof.
  intros _. unfold Bytes.lower_char.
  destruct (Bytes.between 65 90 c); [by left |].
  intros ?%Ascii.eqb_eq. by right.
Qed.

Lemma has_char_lower c s :
  Bytes.between 65 90 c = false -> Bytes.between 97 122 c = false ->
  has_char c (Bytes.lower s) = has_char c s.
Proof.
  intros Hup Hlo. induction s as [|a s IH]; [done |]. cbn. rewrite IH. f_equal.
  unfold Bytes.lower_char. destruct (Bytes.between 65 90 a) eqn:Ha; [| done].
  destruct (Ascii.eqb_spec a c) as [->|Hne]; [congruence |].
  destruct (Ascii.eqb_spec (ascii_of_N (Bytes.code a + 32)) c) as [<-|]; [| done].
  exfalso. revert Ha Hlo. clear.
  destruct a as [[] [] [] [] [] [] [] []]; vm_compute; congruence.
Qed.

Lemma has_char_app c a b : has_char c (a ++ b) = has_char c a || has_char c b.
Proof.
  induction a as [|x a IH]; [done |]. rewrite append_cons. cbn.
  by rewrite IH, orb_assoc.
Qed.

(** An extension in any case: a period, then text without period or
    slash. *)
Lemma extension_shape e l :
  Bytes.lower e = String period l ->
  has_char period l = false -> has_char slash l = false ->
  exists e3, e = String period e3
    /\ has_char period e3 = false /\ has_char slash e3 = false.
Proof.
  destruct e as [|c e3]; [done |]. cbn [Bytes.lower]. intros [= Hc He] Hp Hs.
  assert (c = period) as ->.
  { revert Hc. clear. unfold Bytes.lower_char.
    destruct (Bytes.between 65 90 c) eqn:Hup; [| done].
    intros Hc. exfalso. revert Hup Hc.
    destruct c as [[] [] [] [] [] [] [] []]; vm_compute; congruence. }
  exists e3. split; [done |]. rewrite <- He in Hp, Hs.
  by rewrite has_char_lower in Hp, Hs by done.
Qed.

Lemma rsplit1_absent c s : has_char c s = false -> Bytes.rsplit1 c s = None.
Proof.
  induction s as [|a s IH]; [done |]. cbn.
  intros [Ha Hs]%orb_false_iff. by rewrite IH, Ha.
Qed.

Lemma rsplit1_app c x e :
  has_char c e = false ->
  Bytes.rsplit1 c (x ++ e)
  = match Bytes.rsplit1 c x with
    | Some (h, t) => Some (h, t ++ e)
    | None => None
    end.
Proof.
  intros He. induction x as [|a x IH].
  - change ("" ++ e) with e. by rewrite rsplit1_absent.
  - rewrite append_cons. cbn [Bytes.rsplit1]. rewrite IH.
    destruct (Bytes.rsplit1 c x) as [[h t]|]; [done |].
    by destruct (Ascii.eqb a c).
Qed.

Lemma rsplit1_last c a b :
  has_char c b = false -> Bytes.rsplit1 c (a ++ String c b) = Some (a, b).
Proof.
  intros Hb. induction a as [|x a IH].
  - change ("" ++ String c b) with (String c b). cbn.
    by rewrite rsplit1_absent, Ascii.eqb_refl.
  - rewrite append_cons. cbn [Bytes.rsplit1]. by rewrite IH.
Qed.

Lemma rsplit1_join c s h t :
  Bytes.rsplit1 c s = Some (h, t) -> s = h ++ String c t.
Proof.
  revert h t. induction s as [|a s IH]; intros h t; [done |]. cbn.
  destruct (Bytes.rsplit1 c s) as [[h' t']|].
  - intros [= <- <-]. by rewrite append_cons, <- (IH h' t').
  - destruct (Ascii.eqb_spec a c) as [->|]; [| done]. by intros [= <- <-].
Qed.

Lemma split_dir_join p : fst (split_dir p) ++ snd (split_dir p) = p.
Proof.
  unfold split_dir. destruct (Bytes.rsplit1 slash p) as [[d name]|] eqn:Hs.
  - cbn. rewrite (rsplit1_join _ _ _ _ Hs), append_assoc. done.
  - done.
Qed.

Lemma split_dir_app x e :
  has_char slash e = false ->
  split_dir (x ++ e) = (fst (split_dir x), basename x ++ e).
Proof.
  intros He. unfold basename, split_dir. rewrite rsplit1_app by done.
  by destruct (Bytes.rsplit1 slash x) as [[h t]|].
Qed.

(** [splitext] of a path that ends with an extension. *)
Lemma splitext_app x e3 :
  has_char period e3 = false -> has_char slash e3 = false ->
  splitext (x ++ String period e3)
  = if all_periods (basename x) then (x ++ String period e3, "")
    else (x, String period e3).
Proof.
  intros Hp Hs. unfold splitext. rewrite split_dir_app.
  2:{ cbn. by rewrite Hs. }
  rewrite rsplit1_last by done.
  destruct (all_periods (basename x)); [done |].
  unfold basename. by rewrite split_dir_join.
Qed.

Lemma basename_app x e :
  has_char slash e = false -> basename (x ++ e) = basename x ++ e.
Proof. intros He. unfold basename at 1. by rewrite split_dir_app. Qed.

Lemma endswith_extension x e l :
  Bytes.lower e = l -> Bytes.endswith (Bytes.lower (x ++ e)) l = true.
Proof.
  intros <-. rewrite endswith_lower_app, rev_onto_acc.
  unfold Bytes.startswith. by rewrite strip_prefix_self.
Qed.

(** ** Archive names *)

Lemma two_groups_class c1 c2 s gs :
  Re.rmatch [Re.group1 c1; Re.lit " - "; Re.group1 c2; Re.eos] s = Some gs ->
  exists g1 g2, gs = [g1; g2] /\ s = g1 ++ " - " ++ g2 /\ g1 <> "" /\ g2 <> ""
    /\ all_of c1 g1 = true /\ all_of c2 g2 = true.
Proof.
  intros Hm. destruct (two_groups _ _ _ _ Hm) as (g1 & g2 & -> & Hs & H1 & H2).
  exists g1, g2. split_and!; try done.
  - revert Hm. cbn [Re.rmatch].
    destruct (Re.plus _ c1 s) as [[m x]|] eqn:Hp; [| done].
    cbn. intros [= -> _]. by eapply plus_class.
  - revert Hm. cbn [Re.rmatch].
    destruct (Re.plus _ c1 s) as [[m x]|] eqn:Hp; [| done].
    cbn. intros [= -> ->].
    apply plus_app in Hp as (_ & t & _ & Hk).
    destruct (Bytes.strip_prefix " - " t) as [t2|]; [| done].
    destruct (Re.plus _ c2 t2) as [[m2 x2]|] eqn:Hp2; [| done].
    cbn in Hk. injection Hk as -> _. by eapply plus_class.
Qed.

Lemma all_of_app c a b : all_of c (a ++ b) = all_of c a && all_of c b.
Proof.
  induction a as [|x a IH]; [done |]. rewrite append_cons. cbn.
  by rewrite IH, andb_assoc.
Qed.

Lemma all_of_absent (c : ascii -> bool) d s :
  c d = false -> all_of c s = true -> has_char d s = false.
Proof.
  intros Hd. induction s as [|a s IH]; [done |]. cbn.
  intros [Ha Hs]%andb_true_iff. rewrite (IH Hs), orb_false_r.
  destruct (Ascii.eqb_spec a d) as [->|]; [congruence | done].
Qed.

(** Where neither part holds a hyphen, the separator is the only one. *)
Lemma separator_unique g1 : forall g2 a b,
  has_char hyphen g1 = false -> has_char hyphen g2 = false ->
  g1 ++ " - " ++ g2 = a ++ " - " ++ b -> a = g1.
Proof.
  induction g1 as [|c g1 IH]; intros g2 a b H1 H2 Heq.
  - change ("" ++ " - " ++ g2) with (String " " (String hyphen (String " " g2))) in Heq.
    destruct a as [|c1 a]; [done |]. rewrite append_cons in Heq.
    injection Heq as <- Heq. destruct a as [|c2 a]; [done |].
    rewrite append_cons in Heq. injection Heq as <- Heq.
    exfalso. destruct a as [|c3 a].
    + change ("" ++ " - " ++ b) with (String " " (String hyphen (String " " b))) in Heq.
      injection Heq as ->. cbn in H2. discriminate.
    + rewrite append_cons in Heq. injection Heq as <- ->.
      rewrite has_char_app in H2. apply orb_false_iff in H2 as [_ H2].
      cbn in H2. discriminate.
  - cbn in H1. apply orb_false_iff in H1 as [Hc H1].
    rewrite append_cons in Heq. destruct a as [|c1 a].
    + exfalso.
      change ("" ++ " - " ++ b) with (String " " (String hyphen (String " " b))) in Heq.
      injection Heq as -> Heq. destruct g1 as [|c2 g1].
      * discriminate Heq.
      * rewrite append_cons in Heq. injection Heq as -> _.
        cbn in H1. discriminate.
    + rewrite append_cons in Heq. injection Heq as <- Heq.
      f_equal. by eapply IH.
Qed.

Lemma all_periods_space a b : all_periods (a ++ " - " ++ b) = false.
Proof.
  induction a as [|c a IH]; [done |]. rewrite append_cons. cbn.
  by rewrite IH, andb_false_r.
Qed.

Lemma has_slash_char s : has_slash s = has_char slash s.
Proof. by rewrite has_char_slash. Qed.

Lemma append_empty (s : string) : s ++ "" = s.
Proof. induction s as [|c s IH]; [done |]. by rewrite append_cons, IH. Qed.

(** X9 (the assertion on the extension).  A path is selected as an
    archive when its lower-cased text ends with [.zip], but
    [generate_dest_dir_name] asserts on the extension [os.path.splitext]
    gives.  The two differ exactly for a file name that is nothing but
    periods before the ending, such as a file called [.zip]: for such a
    path the assertion fails and [main_loop] ends with [AssertionError]
    before anything is unpacked. *)
Theorem X9_dot_zip_fails_the_assertion H root descend x e w :
  Bytes.lower e = ".zip" ->
  get_all_matching (x ++ e) ".zip" descend w = (Ok [x ++ e], w) /\
  (fst (generate_dest_dir_name (x ++ e) w) = Raise AssertionError
     <-> all_periods (basename x) = true) /\
  (all_periods (basename x) = true ->
   main_loop H root [x ++ e] descend w = (Raise AssertionError, w)).
Proof.
  intros He.
  assert (get_all_matching (x ++ e) ".zip" descend w = (Ok [x ++ e], w)) as Hsel.
  { unfold get_all_matching. change (Bytes.lower ".zip") with ".zip".
    by rewrite (endswith_extension x e ".zip"). }
  destruct (extension_shape e "zip" He eq_refl eq_refl) as (e3 & -> & Hp & Hs).
  assert (forall w, all_periods (basename x) = true ->
            generate_dest_dir_name (x ++ String period e3) w
            = (Raise AssertionError, w)) as Hfail.
  { intros w0 Hall. unfold generate_dest_dir_name.
    by rewrite splitext_app, Hall by done. }
  split; [exact Hsel |]. split.
  - split.
    + destruct (all_periods (basename x)) eqn:Hall; [done |].
      unfold generate_dest_dir_name. rewrite splitext_app, Hall by done.
      rewrite He. cbn [String.eqb negb].
      change (String.eqb ".zip" ".zip") with true. cbn [negb].
      destruct (Re.rmatch HAPPY_ZIP_PAT (basename x)); [done |].
      by destruct (Re.rmatch CHECK_ZIP_PAT (basename x)).
    + intros Hall. by rewrite Hfail.
  - intros Hall. unfold main_loop. cbn [mapM].
    unfold bind at 1. unfold bind at 1. unfold scan_path at 1.
    unfold bind at 1. rewrite Hsel. cbn [mapM].
    unfold bind at 1. unfold bind at 1. unfold scan_zip at 1.
    unfold bind at 1. unfold unzip, unzip_serial. unfold bind at 1.
    by rewrite Hfail.
Qed.

Lemma X9_dot_zip_fails_the_assertion_witness :
  main_loop bare_host "out" ["in/.ZIP"] true inbox_world
  = (Raise AssertionError, inbox_world).
Proof.
  apply (proj2 (proj2 (X9_dot_zip_fails_the_assertion bare_host "out" true
                         "in/" ".ZIP" inbox_world eq_refl))).
  reflexivity.
Defined.

(** X10 (the output path).  For a source whose name ends with [.flac] in
    any case, the output path is the source path with that ending
    replaced by [.mp3]; when the file name is nothing but periods before
    the ending, [.mp3] is appended instead.  Either way the output lies
    in the directory of the source. *)
Theorem X10_output_path_replaces_the_extension x e :
  Bytes.lower e = ".flac" ->
  mp3_path_of (x ++ e)
    = (if all_periods (basename x) then x ++ e else x) ++ ".mp3" /\
  fst (split_dir (mp3_path_of (x ++ e))) = fst (split_dir (x ++ e)).
Proof.
  intros He.
  destruct (extension_shape e "flac" He eq_refl eq_refl) as (e3 & -> & Hp & Hs).
  assert (mp3_path_of (x ++ String period e3)
          = (if all_periods (basename x) then x ++ String period e3 else x)
            ++ ".mp3") as Hmp3.
  { unfold mp3_path_of. rewrite splitext_app by done.
    by destruct (all_periods (basename x)). }
  split; [exact Hmp3 |]. rewrite Hmp3.
  assert (has_char slash (String period e3) = false) as Hs'.
  { cbn. by rewrite Hs. }
  destruct (all_periods (basename x)).
  - by rewrite (split_dir_app (x ++ String period e3) ".mp3").
  - by rewrite (split_dir_app x ".mp3"), (split_dir_app x (String period e3)).
Qed.

Lemma X10_output_path_replaces_the_extension_witness :
  mp3_path_of ("m/Song.FLAC") = "m/Song.mp3"
  /\ mp3_path_of ("m/.flac") = "m/.flac.mp3".
Proof.
  split.
  - exact (proj1 (X10_output_path_replaces_the_extension "m/Song" ".FLAC" eq_refl)).
  - exact (proj1 (X10_output_path_replaces_the_extension "m/" ".flac" eq_refl)).
Defined.

(** X11 (where an archive name is split).  An archive whose file name,
    without the extension, holds the separator [ - ] between two
    non-empty parts and no line break always gets a destination: it is
    split at the last separator that leaves a non-empty album, so every
    earlier separator stays in the artist part.  Only log lines are
    written. *)
Theorem X11_archive_name_splits_at_last_separator x e a b w :
  Bytes.lower e = ".zip" ->
  basename x = a ++ " - " ++ b -> a <> "" -> b <> "" ->
  all_of Re.dot (basename x) = true ->
  exists g1 g2 w',
    generate_dest_dir_name (x ++ e) w = (Ok (Some (g1 ++ "/" ++ g2)), w')
    /\ basename x = g1 ++ " - " ++ g2 /\ g2 <> ""
    /\ (String.length a <= String.length g1)%nat
    /\ quiet w w'.
Proof.
  intros He Hbn Ha Hb Hdot.
  destruct (extension_shape e "zip" He eq_refl eq_refl) as (e3 & -> & Hp & Hs).
  pose proof (generate_dest_dir_name_pure (x ++ String period e3) w) as [Hq _].
  assert (all_periods (basename x) = false) as Hall.
  { rewrite Hbn. apply all_periods_space. }
  revert Hq. unfold generate_dest_dir_name. rewrite splitext_app, Hall, He by done.
  change (negb (String.eqb ".zip" ".zip")) with false. cbn iota.
  pose proof (basename_no_slash x) as Hslash.
  assert (forall c1 c2 gs,
    Re.rmatch [Re.group1 c1; Re.lit " - "; Re.group1 c2; Re.eos] (basename x)
      = Some gs ->
    exists g1 g2, gs = [g1; g2] /\ join_groups gs = g1 ++ "/" ++ g2
      /\ basename x = g1 ++ " - " ++ g2 /\ g2 <> ""
      /\ all_of c1 g1 = true /\ all_of c2 g2 = true) as Hshape.
  { intros c1 c2 gs (g1 & g2 & -> & Heq & Hg1 & Hg2 & Hc1 & Hc2)%two_groups_class.
    exists g1, g2. split_and!; try done.
    rewrite Heq, !has_slash_app, !orb_false_iff in Hslash.
    destruct Hslash as (Hs1 & _ & Hs2). cbn [join_groups foldl].
    by rewrite path_join_plain. }
  destruct (Re.rmatch HAPPY_ZIP_PAT (basename x)) as [gs|] eqn:Hh.
  - destruct (Hshape _ _ _ Hh) as (g1 & g2 & -> & Hj & Heq & Hg2 & Hc1 & Hc2).
    rewrite Hj. intros Hq. exists g1, g2, w. split_and!; try done.
    enough (a = g1) as -> by done.
    apply (separator_unique g1 g2 a b).
    + by apply (all_of_absent happy_char).
    + by apply (all_of_absent happy_char).
    + by rewrite <- Heq.
  - assert (exists m' x', Re.rmatch CHECK_ZIP_PAT (basename x) = Some (m' :: x')
              /\ (String.length a <= String.length m')%nat) as (m' & x' & Hc & Hle).
    { unfold CHECK_ZIP_PAT. cbn [Re.rmatch]. rewrite Hbn in Hdot |- *.
      rewrite !all_of_app in Hdot. apply andb_true_iff in Hdot as [Hda Hdb].
      apply andb_true_iff in Hdb as [_ Hdb].
      edestruct (plus_longest
        (fun r => match Bytes.strip_prefix " - " r with
                  | Some r0 =>
                      option_map (fun '(g, gs) => g :: gs)
                        (Re.plus (fun s => match s with
                                           | "" => Some []
                                           | String _ _ => None
                                           end) Re.dot r0)
                  | None => None
                  end) Re.dot a (" - " ++ b) Ha Hda) as (m' & x' & Hplus & Hle).
      { rewrite (strip_prefix_self " - " b).
        rewrite <- (append_empty b) at 1.
        by rewrite (plus_stops _ Re.dot b "" []). }
      exists m', x'. split; [| done]. by rewrite Hplus. }
    rewrite Hc. destruct (Hshape _ _ _ Hc) as (g1 & g2 & Hgs & Hj & Heq & Hg2 & _).
    injection Hgs as -> ->. rewrite Hj. intros Hq.
    eexists g1, g2, _. split_and!; try done.
Qed.

Lemma X11_archive_name_splits_at_last_separator_witness :
  exists g1 g2 w',
    generate_dest_dir_name ("in/A - B - C" ++ ".zip") inbox_world
    = (Ok (Some (g1 ++ "/" ++ g2)), w')
    /\ basename "in/A - B - C" = g1 ++ " - " ++ g2 /\ g2 <> ""
    /\ (String.length "A" <= String.length g1)%nat
    /\ quiet inbox_world w'.
Proof.
  apply (X11_archive_name_splits_at_last_separator "in/A - B - C" ".zip"
           "A" "B - C" inbox_world); done.
Defined.

(** X12 (an archive name without the separator).  An archive whose file
    name holds no [ - ] at all is skipped: [unzip_serial] returns [None],
    nothing is created or unpacked, and the only effect is one ERROR log
    line. *)
Theorem X12_archive_without_separator_is_skipped H root x e w :
  Bytes.lower e = ".zip" ->
  all_periods (basename x) = false ->
  (forall a b, basename x <> a ++ " - " ++ b) ->
  unzip_serial H (x ++ e) root w
  = (Ok None,
     mkWorld (files w) (dirs w) (tags w)
       (trace w ++ [EvLog ERROR ("Zip file " ++ (x ++ e)
                                 ++ " does not match the expected pattern!")])).
Proof.
  intros He Hall Hnone.
  destruct (extension_shape e "zip" He eq_refl eq_refl) as (e3 & -> & Hp & Hs).
  assert (forall c1 c2,
    Re.rmatch [Re.group1 c1; Re.lit " - "; Re.group1 c2; Re.eos] (basename x)
      = None) as Hno.
  { intros c1 c2. destruct (Re.rmatch _ (basename x)) as [gs|] eqn:Hm; [| done].
    apply two_groups in Hm as (g1 & g2 & _ & Heq & _). by destruct (Hnone g1 g2). }
  unfold unzip_serial, generate_dest_dir_name.
  rewrite splitext_app, Hall, He by done.
  change (negb (String.eqb ".zip" ".zip")) with false. cbn iota.
  unfold HAPPY_ZIP_PAT, CHECK_ZIP_PAT. by rewrite !Hno.
Qed.

Lemma X12_archive_without_separator_is_skipped_witness :
  fst (unzip_serial bare_host ("in/Album" ++ ".zip") "out" inbox_world) = Ok None.
Proof.
  rewrite (X12_archive_without_separator_is_skipped bare_host "out"
             "in/Album" ".zip" inbox_world); [reflexivity | reflexivity
             | reflexivity |].
  intros a b Heq.
  assert (has_char hyphen (basename "in/Album") = true) as Hh.
  { rewrite Heq, !has_char_app. cbn. by rewrite orb_true_r. }
  vm_compute in Hh. discriminate Hh.
Defined.

(** X13 (a successful unpacking).  When [unzip_serial] returns a
    destination, the destination did not exist before, it is a directory
    now, every member of the archive is a file below it, no file that
    was there is gone, and the trace grew by log lines followed by the
    creation of the directory, the extraction and the closing INFO
    line. *)
Theorem X13_unzip_creates_then_extracts H root z w dest w' :
  unzip_serial H z root w = (Ok (Some dest), w') ->
  exists members logs,
    h_archive H z = Some members /\
    exists_in w dest = false /\
    dest ∈ dirs w' /\
    (forall m, In m members -> path_join dest m ∈ files w') /\
    files w ⊆ files w' /\
    Forall is_log logs /\
    trace w' = (trace w ++ logs ++
                [EvMakedirs dest; EvExtract z dest;
                 EvLog INFO ("Unzipped to " ++ dest)])%list.
Proof.
  unfold unzip_serial, bind at 1. intros Hrun.
  pose proof (generate_dest_dir_name_pure z w) as [(Hf & Hd & Ht & logs & Hl & Hlogs) _].
  destruct (generate_dest_dir_name z w) as [[n|e] w1]; [| done].
  cbn [snd] in *. destruct n as [[|c n]|]; try done.
  revert Hrun. unfold bind at 1, path_exists.
  destruct (exists_in w1 _) eqn:Hex; [done |].
  unfold bind at 1, os_makedirs. rewrite Hex. cbn [orb].
  destruct (existsb _ _); [done |].
  unfold bind at 1, extractall.
  destruct (h_archive H z) as [members|] eqn:Harch; [| done].
  unfold bind, log, emit, ret. cbn [files dirs tags trace].
  intros [= <- <-]. cbn [files dirs tags trace].
  exists members, logs. split_and!; try done.
  - unfold exists_in in *. by rewrite <- Hf, <- Hd.
  - set_solver.
  - intros m Hm. apply elem_of_union_r, elem_of_list_to_set, list_elem_of_In.
    by apply in_map.
  - rewrite Hf. set_solver.
  - rewrite Hl, <- !app_assoc. done.
Qed.

Lemma X13_unzip_creates_then_extracts_witness :
  "out/Art/Alb" ∈ dirs (snd (unzip_serial (demo_host "" 0 0) "in/Art - Alb.zip"
                               "out" inbox_world)).
Proof.
  destruct (X13_unzip_creates_then_extracts (demo_host "" 0 0) "out"
              "in/Art - Alb.zip" inbox_world "out/Art/Alb"
              (snd (unzip_serial (demo_host "" 0 0) "in/Art - Alb.zip"
                      "out" inbox_world)))
    as (members & logs & _ & _ & Hdir & _).
  - vm_compute. reflexivity.
  - exact Hdir.
Defined.

(** X14 (an archive that cannot be read).  The destination directory is
    created before the archive is opened.  When the archive then turns
    out to be unreadable, [unzip_serial] raises [BadZipFile] and the
    empty destination stays: a later call for the same archive finds the
    destination, logs that it skips the archive and returns [None]. *)
Theorem X14_unreadable_archive_blocks_itself H root z w w1 :
  unzip_serial H z root w = (Raise (BadZipFile z), w1) ->
  h_archive H z = None /\
  files w1 = files w /\
  (exists dest, exists_in w dest = false /\ dest ∈ dirs w1) /\
  exists w2, unzip_serial H z root w1 = (Ok None, w2) /\ quiet w1 w2.
Proof.
  unfold unzip_serial at 1, bind at 1. intros Hrun.
  pose proof (generate_dest_dir_name_pure z w) as [(Hf & Hd & Ht & logs & Hl & Hlogs) Hpure].
  destruct (generate_dest_dir_name z w) as [[n|e] w0] eqn:Hgen.
  2:{ injection Hrun as -> _. revert Hgen. unfold generate_dest_dir_name.
      destruct (splitext z) as [filename ext]. destruct (negb _); [done |].
      destruct (Re.rmatch HAPPY_ZIP_PAT _); [done |].
      by destruct (Re.rmatch CHECK_ZIP_PAT _). }
  cbn [snd fst] in *. destruct n as [[|c n]|]; try done.
  revert Hrun. unfold bind at 1, path_exists.
  destruct (exists_in w0 _) eqn:Hex; [done |].
  unfold bind at 1, os_makedirs. rewrite Hex. cbn [orb].
  destruct (existsb _ _); [done |].
  unfold bind at 1, extractall.
  destruct (h_archive H z) as [members|] eqn:Harch; [done |].
  unfold raise. intros [= <-]. cbn [files dirs].
  split; [done |]. split; [done |]. split.
  - exists (path_join root (String c n)). split.
    + unfold exists_in in *. by rewrite <- Hf, <- Hd.
    + set_solver.
  - apply unzip_serial_settled. exists (Some (String c n)). split.
    + by rewrite Hpure.
    + unfold exists_in. cbn [files dirs].
      apply orb_true_iff. right. apply bool_decide_eq_true. set_solver.
Qed.

Lemma X14_unreadable_archive_blocks_itself_witness :
  exists w2,
    unzip_serial bare_host "in/Lost - Tapes.zip" "out"
      (snd (unzip_serial bare_host "in/Lost - Tapes.zip" "out" inbox_world))
    = (Ok None, w2).
Proof.
  destruct (X14_unreadable_archive_blocks_itself bare_host "out"
              "in/Lost - Tapes.zip" inbox_world
              (snd (unzip_serial bare_host "in/Lost - Tapes.zip" "out"
                      inbox_world)))
    as (_ & _ & _ & w2 & Hrun & _).
  - vm_compute. reflexivity.
  - by exists w2.
Defined.

(** ** Edge cases of one pipeline *)

Lemma extraction_raises output e :
  metaflac_stdout_to_setters output = Raise e -> e = UnicodeDecodeError.
Proof.
  rewrite metaflac_stdout_to_setters_spec. destruct (well_encoded output); congruence.
Qed.

Lemma convert_flac_skip_quiet H f w :
  exists_in w (mp3_path_of f) = true ->
  exists w', convert_flac H f w = (Ok None, w') /\ quiet w w'.
Proof.
  intros Hex. rewrite (convert_flac_skip H f w Hex). eexists. split; [done |].
  split_and!; try done. eexists. split; [done |]. by repeat constructor.
Qed.

(** X15 (tags that cannot be read).  When the listing process cannot be
    started, or its output cannot be decoded, the pipeline of the file
    ends with that exception, which is no [RuntimeError] and so is not
    contained; all that happened is that the listing process was started
    twice: no transcoder runs, no tag is written, nothing is removed. *)
Theorem X15_unreadable_tags_stop_the_pipeline H f w e :
  exists_in w (mp3_path_of f) = false ->
  match h_run H (metaflac_cmd_args f) with
  | None => e = OSError "metaflac"
  | Some pm => metaflac_stdout_to_setters (p_stdout pm) = Raise e
  end ->
  is_RuntimeError e = false /\
  exists w',
    convert_flac H f w = (Raise e, w') /\
    trace w' = (trace w ++ [EvSpawn (metaflac_cmd_args f);
                            EvSpawn (metaflac_cmd_args f)])%list /\
    files w ⊆ files w' /\ dirs w' = dirs w.
Proof.
  intros Hex Hm.
  assert (is_RuntimeError e = false) as Hne.
  { destruct (h_run H (metaflac_cmd_args f)); [| by subst e].
    by apply extraction_raises in Hm as ->. }
  split; [exact Hne |].
  destruct (convert_flac H f w) as [r w'] eqn:Hrun.
  destruct (h_run H (metaflac_cmd_args f)) as [pm|] eqn:Hrunm.
  - paths Hrun; props; try congruence;
      repeat match goal with
             | H1 : metaflac_stdout_to_setters _ = Raise ?a |- _ =>
                 rewrite Hm in H1; injection H1 as <-
             end;
      eexists; (split; [reflexivity |]); cbn [files dirs tags trace];
      (split_and!; [by rewrite <- !app_assoc | set_solver | done]).
  - subst e. paths Hrun; props; try congruence;
      eexists; (split; [reflexivity |]); cbn [files dirs tags trace];
      (split_and!; [by rewrite <- !app_assoc | set_solver | done]).
Qed.

Lemma X15_unreadable_tags_stop_the_pipeline_witness :
  exists w', convert_flac bare_host "m/a.flac" demo_world
             = (Raise (OSError "metaflac"), w').
Proof.
  destruct (X15_unreadable_tags_stop_the_pipeline bare_host "m/a.flac" demo_world
              (OSError "metaflac")) as (_ & w' & Hrun & _).
  - vm_compute. reflexivity.
  - reflexivity.
  - by exists w'.
Defined.

(** X16 (the source cannot be removed).  When the last thing a pipeline
    did was a refused removal of the source file, the pipeline ended with
    [OSError] after the transcode and the tagging: the output exists and
    carries its tag, and a later pipeline for the same source finds the
    output and skips the file, so the source is kept for good. *)
Theorem X16_refused_removal_of_the_source H f w r w1 :
  mp3_path_of f <> f ->
  convert_flac H f w = (r, w1) ->
  last (trace w1) = Some (EvRemove f false) ->
  r = Raise (OSError f) /\
  mp3_path_of f ∈ files w1 /\
  (exists tag, tags w1 !! mp3_path_of f = Some tag) /\
  exists w2, convert_flac H f w1 = (Ok None, w2) /\ quiet w1 w2.
Proof.
  intros Hne Hrun Hlast.
  paths Hrun; rewrite ?app_assoc, last_snoc in Hlast; simplify_eq; props.
  split; [done |]. split; [done |]. split.
  - eexists. apply lookup_insert_eq.
  - apply convert_flac_skip_quiet. unfold exists_in. cbn [files dirs].
    apply orb_true_iff. left. by apply bool_decide_eq_true.
Qed.

Lemma X16_refused_removal_of_the_source_witness :
  fst (convert_flac (stubborn_host sample_listing 0 0) "m/a.flac" demo_world)
  = Raise (OSError "m/a.flac").
Proof.
  refine (proj1 (X16_refused_removal_of_the_source
                   (stubborn_host sample_listing 0 0) "m/a.flac" demo_world
                   (fst (convert_flac (stubborn_host sample_listing 0 0)
                           "m/a.flac" demo_world))
                   (snd (convert_flac (stubborn_host sample_listing 0 0)
                           "m/a.flac" demo_world)) _ _ _)).
  - vm_compute. discriminate.
  - by destruct (convert_flac _ _ _).
  - vm_compute. reflexivity.
Defined.



(** ** The two phases of [main_loop] *)

Section Appends.
Context (P : event -> Prop).

Lemma os_remove_adds H p :
  P (EvRemove p true) -> P (EvRemove p false) ->
  steps (appends P) (os_remove H p).
Proof.
  intros Ht Hf w. unfold os_remove.
  case_match; (eapply appends_one; [| reflexivity]); done.
Qed.

Lemma set_tags_adds H p setters :
  (forall tag, P (EvSave p tag)) -> steps (appends P) (set_tags H p setters).
Proof.
  intros HP w. unfold set_tags.
  repeat case_match; try (by apply appends_none).
  eapply appends_one; [| reflexivity]. done.
Qed.

Lemma os_makedirs_adds p :
  P (EvMakedirs p) -> steps (appends P) (os_makedirs p).
Proof.
  intros HP w. unfold os_makedirs.
  case_match; [by apply appends_none |].
  eapply appends_one; [| reflexivity]. done.
Qed.

Lemma extractall_adds H z d :
  P (EvExtract z d) -> steps (appends P) (extractall H z d).
Proof.
  intros HP. unfold extractall. case_match; [| apply steps_raise; tc_solve].
  intros w. eapply appends_one; [| reflexivity]. done.
Qed.

Lemma run_chain_adds H cmds : steps (appends P) (run_chain H cmds).
Proof.
  induction cmds as [|c rest IH]; cbn [run_chain];
    walk ltac:(first [apply leave_appends | exact IH]).
Qed.
End Appends.

(** [allowed] proves that an event is one of those the phase may add. *)
Ltac adds_leaf allowed :=
  first [ apply emit_appends; allowed | apply leave_appends
        | apply os_remove_adds; allowed | apply set_tags_adds; intros; allowed
        | apply os_makedirs_adds; allowed | apply extractall_adds; allowed
        | apply run_chain_adds ].






(** ** What the pipelines work on *)


Lemma join_concerns H f :
  steps (appends (fun ev => is_log ev \/ concerns f ev)) (convert_flac_join H f).
Proof.
  unfold convert_flac_join, gather2, convert_file_only, get_tag_setters,
    pipe_cmds, call_async, spawn, log, chain, PipeBuilder.
  walk ltac:(adds_leaf ltac:(first [left; exact I | right; cbn; by auto])).
Qed.









Section Raises.
Context (Q : exn -> Prop).



Lemma raises_try {A} (m : M A) : raises Q (try m).
Proof. intros w e. unfold try. by destruct (m w). Qed.



End Raises.






(** ** The closing line and the availability check *)

Ltac other_event :=
  unfold not_done, DONE;
  first [ discriminate
        | let Heq := fresh in intros Heq; injection Heq as Heq;
          vm_compute in Heq; discriminate ].

Lemma main_loop_not_done H root paths descend :
  steps (appends not_done) (main_loop H root paths descend).
Proof.
  unfold main_loop, scan_path, scan_zip, unzip, unzip_serial,
    generate_dest_dir_name, get_all_matching, gather, run_pipelines,
    run_entered, convert_flac_enter, convert_flac_join, gather2,
    convert_file_only, get_tag_setters, pipe_cmds, call_async, spawn,
    metaflac_cmd_args, log.
  walk ltac:(adds_leaf other_event).
Qed.

Lemma probe_outcome H cmds : forall missing w,
  Forall (absent_or_fine H) cmds ->
  fst (probe H cmds missing w)
  = Ok (missing ++ List.filter (cannot_start H) cmds)%list.
Proof.
  induction cmds as [|cmd rest IH]; intros missing w Hall.
  - cbn. by rewrite app_nil_r.
  - apply Forall_cons in Hall as [Hcmd Hrest]. rewrite probe_cons.
    cbn [List.filter]. unfold absent_or_fine in Hcmd. unfold cannot_start at 1.
    unfold try, check_call, spawn, bind, emit, leave, ret, raise.
    destruct (h_run H [cmd; "--help"]) as [p|].
    + rewrite Hcmd. cbn. by rewrite IH.
    + cbn. rewrite IH by done. by rewrite <- app_assoc.
Qed.

Lemma probe_broken H pre cmd post p : forall missing w,
  Forall (absent_or_fine H) pre ->
  h_run H [cmd; "--help"] = Some p -> p_returncode p <> 0 ->
  exists w',
    probe H (pre ++ cmd :: post) missing w
    = (Raise (CalledProcessError [cmd; "--help"] (p_returncode p)), w') /\
    trace w' = (trace w ++ map probe_event (pre ++ [cmd]))%list.
Proof.
  intros missing w Hpre Hp Hrc. revert missing w.
  induction Hpre as [|c pre Hc Hpre IH]; intros missing w.
  - cbn [app]. rewrite probe_cons.
    unfold try, check_call, spawn, bind, emit, leave, ret, raise.
    rewrite Hp. apply Z.eqb_neq in Hrc. rewrite Hrc. cbn. by eexists.
  - cbn [app]. rewrite probe_cons.
    destruct (check_call_run H c w) as (r & w1 & Hr & Htr & _).
    assert (exists m, forall B (k1 : M B) k2,
              match try (check_call H [c; "--help"]) w with
              | (Ok (Ok _), w1) => k1 w1
              | (Ok (Raise e), w1) =>
                  if is_EnvironmentError e then k2 w1 else (Raise e, w1)
              | (Raise e, w1) => (Raise e, w1)
              end = (if m : bool then k1 w1 else k2 w1)) as [m Hm].
    { revert Hr. unfold try, check_call, spawn, bind, emit, leave, ret, raise.
      unfold absent_or_fine in Hc.
      destruct (h_run H [c; "--help"]) as [q|].
      - rewrite Hc. cbn. intros [= <- <-]. by exists true.
      - cbn. intros [= <- <-]. by exists false. }
    rewrite Hm. 
    destruct m; [destruct (IH missing w1) as (w' & -> & Htr')
                | destruct (IH (missing ++ [c])%list w1) as (w' & -> & Htr')];
      exists w'; (split; [done |]); rewrite Htr', Htr, <- app_assoc; done.
Qed.

(** X21 (the closing line).  [main] logs [Done!] exactly when it returns
    normally, as the last thing it does; a run that ends with an
    exception never logs it. *)
Theorem X21_done_is_logged_on_success_only H unpack_dir paths descend w :
  exists evs,
    Forall not_done evs /\
    trace (snd (main H unpack_dir paths descend w))
    = (trace w ++ evs ++
       (if raised (fst (main H unpack_dir paths descend w))
        then [] else [DONE]))%list.
Proof.
  destruct (main H unpack_dir paths descend w) as [r w'] eqn:Hrun.
  cbn [fst snd]. revert Hrun. unfold main, bind at 1.
  destruct (check_commands_trace H w) as (k & Hk & _).
  assert (Forall not_done (take k PROBES)) as Hprobes.
  { apply Forall_take. repeat constructor; discriminate. }
  destruct (check_commands H w) as [[[]|e] w1]; cbn [fst snd] in *.
  - destruct (main_loop_not_done H unpack_dir paths descend w1)
      as (evs & Hevs & HP).
    unfold bind.
    destruct (main_loop H unpack_dir paths descend w1) as [[[]|e] w2];
      cbn [snd] in *; unfold log, emit; intros [= <- <-];
      cbn [raised trace];
      exists (take k PROBES ++ evs)%list; (split; [by apply Forall_app |]).
    + by rewrite Hevs, Hk, <- !app_assoc.
    + by rewrite Hevs, Hk, app_nil_r, <- !app_assoc.
  - intros [= <- <-]. exists (take k PROBES). split; [done |].
    by rewrite app_nil_r.
Qed.

(** X22 (the message about missing tools).  When each of the three
    tools is either absent or answers [--help] with 0, [check_commands]
    returns normally if none is absent, and otherwise raises
    [RuntimeError] with a message that lists exactly the absent tools, in
    the order flac, lame, metaflac. *)
Theorem X22_missing_commands_are_listed H w :
  Forall (absent_or_fine H) REQUIRED ->
  fst (check_commands H w)
  = match List.filter (cannot_start H) REQUIRED with
    | [] => Ok tt
    | missing =>
        Raise (RuntimeError ("missing commands: " ++ repr_names missing))
    end.
Proof.
  intros Hall. unfold check_commands, bind.
  pose proof (probe_outcome H REQUIRED [] w Hall) as Hp.
  destruct (probe H REQUIRED [] w) as [r w1]. cbn [fst app] in Hp. subst r.
  by destruct (List.filter (cannot_start H) REQUIRED).
Qed.

Lemma X22_missing_commands_are_listed_witness :
  fst (check_commands bare_host inbox_world)
  = Raise (RuntimeError "missing commands: ['flac', 'lame', 'metaflac']").
Proof.
  rewrite (X22_missing_commands_are_listed bare_host inbox_world).
  - reflexivity.
  - by repeat constructor.
Defined.

(** X23 (a tool that is present but fails).  When one of the tools
    answers [--help] with a non-zero exit code, and the tools before it
    are absent or fine, [check_commands] ends with the
    [CalledProcessError] of that tool: tools found absent before it are
    not reported, and the tools after it are not probed. *)
Theorem X23_failing_help_escapes_the_check H pre cmd post p w :
  REQUIRED = (pre ++ cmd :: post)%list ->
  Forall (absent_or_fine H) pre ->
  h_run H [cmd; "--help"] = Some p -> p_returncode p <> 0 ->
  exists w',
    check_commands H w
    = (Raise (CalledProcessError [cmd; "--help"] (p_returncode p)), w') /\
    trace w' = (trace w ++ map probe_event (pre ++ [cmd]))%list.
Proof.
  intros Hreq Hpre Hp Hrc. unfold check_commands, bind. rewrite Hreq.
  destruct (probe_broken H pre cmd post p [] w Hpre Hp Hrc) as (w' & -> & Htr).
  by exists w'.
Qed.

Lemma X23_failing_help_escapes_the_check_witness :
  exists w',
    check_commands grumpy_host inbox_world
    = (Raise (CalledProcessError ["lame"; "--help"] 1), w') /\
    trace w' = (trace inbox_world
                ++ map probe_event (["flac"] ++ ["lame"]))%list.
Proof.
  apply (X23_failing_help_escapes_the_check grumpy_host ["flac"] "lame"
           ["metaflac"] (Proc "" 1 []) inbox_world).
  - reflexivity.
  - by repeat constructor.
  - reflexivity.
  - discriminate.
Defined.

(** ** Nothing that was on disk is deleted *)












(** ** The entry guards see the disk as it was *)

Lemma join_starts H f w :
  exists rest,
    trace (snd (convert_flac_join H f w))
    = (trace w ++ EvSpawn (metaflac_cmd_args f) :: rest)%list.
Proof.
  destruct (convert_flac_join H f w) as [r w'] eqn:Hrun.
  paths Hrun; cbn [snd trace]; rewrite <- ?app_assoc; cbn [app]; by eexists.
Qed.

Lemma run_entered_trace H jobs : forall w,
  exists evs,
    trace (snd (mapM (run_entered H) jobs w)) = (trace w ++ evs)%list /\
    forall f, In (EvSpawn (metaflac_cmd_args f)) evs <-> In (f, true) jobs.
Proof.
  induction jobs as [|[f0 g] jobs IH]; intros w.
  - exists []. cbn. rewrite app_nil_r. split; [done | tauto].
  - cbn [mapM]. unfold bind at 1. unfold run_entered at 1. cbn [fst snd].
    destruct g.
    + unfold try. pose proof (join_starts H f0 w) as [rest Hrest].
      pose proof (join_concerns H f0 w) as (evs0 & Hevs0 & HP0).
      destruct (convert_flac_join H f0 w) as [r w1]. cbn [snd] in *.
      destruct (IH w1) as (evs & Hevs & Hiff).
      exists (evs0 ++ evs)%list. split.
      * unfold bind. destruct (mapM (run_entered H) jobs w1) as [[bs|e] w2];
          unfold ret; cbn [snd] in *; by rewrite Hevs, Hevs0, app_assoc.
      * intros f. rewrite in_app_iff, Hiff. cbn [In]. split.
        -- intros [Hin | Hin]; [left | by right].
           rewrite Forall_forall in HP0.
           apply list_elem_of_In, HP0 in Hin as [[] | Hc]. cbn in Hc.
           injection Hc as ->. done.
        -- intros [[= ->] | Hin]; [left | by right].
           rewrite Hevs0 in Hrest. apply app_inv_head in Hrest. subst evs0.
           by left.
    + unfold ret at 1. destruct (IH w) as (evs & Hevs & Hiff).
      exists evs. split.
      * unfold bind. destruct (mapM (run_entered H) jobs w) as [[bs|e] w2];
          unfold ret; cbn [snd] in *; done.
      * intros f. rewrite Hiff. cbn [In]. split; [by right |].
        by intros [[=] | Hin].
Qed.

(** X25 (the entry guards see the disk as it was).  In the joint await
    of a batch, the pipeline of a source file is started exactly when
    its output path did not exist when the await began.  What the other
    pipelines of the batch write in the meantime does not count: two
    sources with the same output path are both transcoded. *)
Theorem X25_guards_see_the_initial_disk H flacs w :
  exists evs,
    trace (snd (gather H flacs w)) = (trace w ++ evs)%list /\
    forall f, In f flacs ->
      (In (EvSpawn (metaflac_cmd_args f)) evs
       <-> exists_in w (mp3_path_of f) = false).
Proof.
  unfold gather, bind at 1, run_pipelines, bind at 1.
  destruct (enter_all flacs w) as (gos & w1 & -> & Hq & Hall).
  destruct Hq as (_ & _ & _ & logs & Hlogs & Hl).
  destruct (run_entered_trace H (zip flacs gos) w1) as (evs & Hevs & Hiff).
  exists (logs ++ evs)%list. split.
  { destruct (mapM (run_entered H) (zip flacs gos) w1) as [[rs|e] w2];
      unfold lift; cbn [snd] in *; by rewrite Hevs, Hlogs, app_assoc. }
  intros f Hf. rewrite in_app_iff, Hiff. split.
  - intros [Hin | Hin].
    + rewrite Forall_forall in Hl. by apply list_elem_of_In, Hl in Hin.
    + apply list_elem_of_In, list_elem_of_lookup in Hin as [i Hi].
      apply lookup_zip_with_Some in Hi as (f' & g' & Heq & Hfi & Hgi).
      simplify_eq.
      destruct (Forall2_lookup_l _ _ _ _ _ Hall Hfi) as (g & Hg & Hgeq).
      rewrite Hgi in Hg. simplify_eq. by apply negb_true_iff.
  - intros Hex. right.
    apply list_elem_of_In, list_elem_of_lookup in Hf as [i Hi].
    destruct (Forall2_lookup_l _ _ _ _ _ Hall Hi) as (g & Hg & Hgeq).
    rewrite Hex in Hgeq. cbn in Hgeq. subst g.
    apply list_elem_of_In, list_elem_of_lookup. exists i.
    rewrite lookup_zip_with, Hi. cbn. by rewrite Hg.
Qed.

